(** * hydro-search: the order and search endpoints of [server.js]

    A shallow embedding of the two non-trivial Express handlers of
    [src/server.js] ([POST /api/orders] and [GET /api/search]) together with
    the fragment of JavaScript and of the MongoDB driver they rely on.

    Modelling conventions.
    - A JSON body field is a [jsval]; [JUndefined] is an absent field.  JSON
      numbers are restricted to integers and JSON arrays to arrays of
      strings (what a client sends for [lessonIDs]).
    - An [ObjectId] is represented by the 24 lowercase hex digits printed by
      its [toString()]; [new ObjectId(s)] accepts a string of 24 hex digits
      in either case and throws on any other string.  (Drivers before
      version 6 also accept a string of 12 characters; the statements below
      ask for identifiers that are [well_formed] or [canonical] and do not
      depend on which other strings are refused.)
    - The [lessons] collection is the list of its documents in the order
      [find] returns them; [_id] is unique in a real collection, which the
      theorems that need it assume as [NoDup].
    - [availableInventory] is a JavaScript number: an integer or [NaN]
      (the handler itself can store [NaN], see [neg_needed]).
    - A driver call may throw; the handler's [catch] turns any exception
      into a 500 response.  A call that throws has no effect on the store.
    - [createdAt] and the generated [_id] of an order are left out; the
      [insertedId] of the response is the position of the new order. *)

From Stdlib Require Import List String Ascii ZArith Bool Arith Lia Permutation.
Import ListNotations.
Local Open Scope string_scope.
Local Open Scope Z_scope.

(** ** JavaScript values *)

Inductive jsval : Type :=
| JUndefined
| JNull
| JBool (b : bool)
| JNum (n : Z)
| JStr (s : string)
| JArr (xs : list string)
| JObj.

(** [!v] is [negb (truthy v)]. *)
Definition truthy (v : jsval) : bool :=
  match v with
  | JUndefined | JNull => false
  | JBool b => b
  | JNum n => negb (n =? 0)
  | JStr s => negb (s =? "")%string
  | JArr _ | JObj => true
  end.

(** The values [for (const id of v)] visits; [None] is the [TypeError] of a
    value that is not iterable.  A string iterates over its characters. *)
Definition for_of (v : jsval) : option (list string) :=
  match v with
  | JArr xs => Some xs
  | JStr s => Some (map (fun c => String c EmptyString) (list_ascii_of_string s))
  | _ => None
  end.

(** A JavaScript number as the handler meets it. *)
Inductive number : Type :=
| NaN
| Int (z : Z).

(** The value read from [lessonCountMap] is an [option nat]: [None] is
    [undefined].  [-needed]: the negation of [undefined] is [NaN]. *)
Definition neg_needed (needed : option nat) : number :=
  match needed with
  | Some n => Int (- Z.of_nat n)
  | None => NaN
  end.

(** The [$inc] operator on a numeric field. *)
Definition inc (a b : number) : number :=
  match a, b with
  | Int x, Int y => Int (x + y)
  | _, _ => NaN
  end.

(** ** ObjectId *)

Definition is_hex (c : ascii) : bool :=
  let n := nat_of_ascii c in
  ((48 <=? n) && (n <=? 57) || (97 <=? n) && (n <=? 102)
   || (65 <=? n) && (n <=? 70))%nat.

Definition lower (c : ascii) : ascii :=
  let n := nat_of_ascii c in
  if ((65 <=? n) && (n <=? 90))%nat then ascii_of_nat (n + 32) else c.

Definition lowercase (s : string) : string :=
  string_of_list_ascii (map lower (list_ascii_of_string s)).

(** [new ObjectId(s)]; [None] when the constructor throws. *)
Definition ObjectId (s : string) : option string :=
  if ((String.length s =? 24)%nat && forallb is_hex (list_ascii_of_string s))%bool
  then Some (lowercase s) else None.

(** [keys.map(id => new ObjectId(id))]: the first throw aborts the map. *)
Fixpoint map_ObjectId (keys : list string) : option (list string) :=
  match keys with
  | [] => Some []
  | k :: ks =>
      match ObjectId k with
      | None => None
      | Some o =>
          match map_ObjectId ks with
          | None => None
          | Some os => Some (o :: os)
          end
      end
  end.

(** ** The store *)

Record lesson : Type := mkLesson {
  _id : string;
  title : string;
  location : string;
  price : Z;
  availableInventory : number
}.

Record order : Type := mkOrder {
  o_name : jsval;
  o_phoneNumber : jsval;
  o_address : jsval;
  o_city : jsval;
  o_state : jsval;
  o_zip : jsval;
  o_lessonIDs : list string;
  o_lessonNames : list string;
  o_numberOfSpaces : jsval
}.

Record store : Type := mkStore {
  lessonsCollection : list lesson;
  ordersCollection : list order
}.

(** [lessonsCollection.find({ _id: { $in: ids } })]. *)
Definition find_in (ids : list string) (ls : list lesson) : list lesson :=
  filter (fun l => existsb (String.eqb (_id l)) ids) ls.

(** [updateOne({ _id: id }, { $inc: { availableInventory: d } })]: the
    first document with that [_id] is updated, the others are left alone. *)
Fixpoint updateOne_inc (id : string) (d : number) (ls : list lesson)
  : list lesson :=
  match ls with
  | [] => []
  | l :: ls' =>
      if (_id l =? id)%string
      then mkLesson (_id l) (title l) (location l) (price l)
                    (inc (availableInventory l) d) :: ls'
      else l :: updateOne_inc id d ls'
  end.

(** ** The request body and the responses *)

Record request : Type := mkRequest {
  name : jsval;
  phoneNumber : jsval;
  address : jsval;
  city : jsval;
  state : jsval;
  zip : jsval;
  lessonIDs : jsval;
  numberOfSpaces : jsval
}.

Inductive response : Type :=
| AllFieldsRequired
    (* 400 "All fields are required." *)
| NotEnoughSpaces (t : string) (needed : nat) (available : Z)
    (* 400 "Not enough spaces for 't'. Needed: .., Available: .." *)
| ServerError
    (* 500, from the catch block *)
| OrderSaved (orderId : nat).
    (* 200 "Order saved and inventory updated." *)

(** ** [lessonCountMap]

    A JavaScript object keeps its string keys in insertion order, so the
    map is an association list.  Assigning a number to the key ["__proto__"]
    goes to the setter inherited from [Object.prototype], which ignores a
    value that is not an object: that key is never created.  (The other
    names inherited from [Object.prototype] do become own keys; none of them
    is a valid ObjectId string, so line 105 throws before what is stored
    under them, a string and not a count, is read; the statements about
    the counts are about the identifiers [new ObjectId] accepts.) *)

Definition countMap : Type := list (string * nat).

Fixpoint lookup (m : countMap) (k : string) : option nat :=
  match m with
  | [] => None
  | (k', n) :: m' => if (k' =? k)%string then Some n else lookup m' k
  end.

(** [m[id] = (m[id] || 0) + 1] *)
Fixpoint bump (m : countMap) (id : string) : countMap :=
  match m with
  | [] => [(id, 1%nat)]
  | (k, n) :: m' =>
      if (k =? id)%string then (k, S n) :: m' else (k, n) :: bump m' id
  end.

Definition count_step (m : countMap) (id : string) : countMap :=
  if (id =? "__proto__")%string then m else bump m id.

Definition lessonCountMap (ids : list string) : countMap :=
  fold_left count_step ids [].

(** [Object.keys(lessonCountMap)] *)
Definition keys (m : countMap) : list string := map fst m.

(** ** [POST /api/orders] (lines 93-152) *)

(** Line 97: every destructured field must be truthy. *)
Definition validate (r : request) : bool :=
  truthy (name r) && truthy (phoneNumber r) && truthy (address r)
  && truthy (city r) && truthy (state r) && truthy (zip r)
  && truthy (lessonIDs r) && truthy (numberOfSpaces r).

(** Lines 109-116: the availability check over the lessons that were
    found; [Some resp] is the early [return] of the 400 response.  The
    comparison [a < needed] is false when [a] is [NaN] or [needed] is
    [undefined]. *)
Fixpoint check (m : countMap) (lessons : list lesson) : option response :=
  match lessons with
  | [] => None
  | l :: rest =>
      match availableInventory l, lookup m (_id l) with
      | Int a, Some needed =>
          if a <? Z.of_nat needed
          then Some (NotEnoughSpaces (title l) needed a)
          else check m rest
      | _, _ => check m rest
      end
  end.

(** The driver calls of one request are numbered in the order the handler
    issues them: 0 is the [find], 1.. are the [updateOne]s, the last one is
    the [insertOne].  [fail_at = Some k] makes call [k] throw. *)
Definition throws (fail_at : option nat) (k : nat) : bool :=
  match fail_at with
  | Some n => (n =? k)%nat
  | None => false
  end.

(** Lines 119-122: one unconditional [$inc] per found lesson.  The result
    is the collection reached and whether the loop ran to its end. *)
Fixpoint update_loop (fail_at : option nat) (k : nat) (m : countMap)
    (todo : list lesson) (ls : list lesson) : list lesson * bool :=
  match todo with
  | [] => (ls, true)
  | l :: rest =>
      if throws fail_at k then (ls, false)
      else update_loop fail_at (S k) m rest
             (updateOne_inc (_id l) (neg_needed (lookup m (_id l))) ls)
  end.

(** Lines 124-128: [for (let i = 0; i < repeat; i++)] runs [repeat] times,
    and not at all when [repeat] is [undefined]. *)
Definition iterations (needed : option nat) : nat :=
  match needed with
  | Some n => n
  | None => 0
  end.

Definition lessonNames (m : countMap) (lessons : list lesson) : list string :=
  flat_map (fun l => repeat (title l) (iterations (lookup m (_id l)))) lessons.

(** Lines 130-141 ([createdAt] and the generated [_id] are left out). *)
Definition build_order (r : request) (m : countMap) (objectIds : list string)
    (lessons : list lesson) : order :=
  mkOrder (name r) (phoneNumber r) (address r) (city r) (state r) (zip r)
          objectIds (lessonNames m lessons) (numberOfSpaces r).

(** The handler run from entry to response with no other request in
    flight.  [insertedId] is modelled by the position of the new document. *)
Definition placeOrder (fail_at : option nat) (db : store) (r : request)
  : store * response :=
  if negb (validate r) then (db, AllFieldsRequired) else
  match for_of (lessonIDs r) with
  | None => (db, ServerError)
  | Some ids =>
      let m := lessonCountMap ids in
      match map_ObjectId (keys m) with
      | None => (db, ServerError)
      | Some objectIds =>
          if throws fail_at 0 then (db, ServerError) else
          let lessons := find_in objectIds (lessonsCollection db) in
          match check m lessons with
          | Some resp => (db, resp)
          | None =>
              let (ls', finished) :=
                update_loop fail_at 1 m lessons (lessonsCollection db) in
              let db' := mkStore ls' (ordersCollection db) in
              if negb finished then (db', ServerError) else
              if throws fail_at (S (List.length lessons))
              then (db', ServerError)
              else (mkStore ls' (ordersCollection db
                                   ++ [build_order r m objectIds lessons]),
                    OrderSaved (List.length (ordersCollection db)))
          end
      end
  end.

(** ** Requests in flight together

    Node runs a handler until its next [await]; the awaited driver call
    takes effect in the store at some later moment, after which the handler
    continues to its next [await].  Handlers of different requests share
    nothing but the store.  A [task] is a handler suspended at an [await];
    [resume] performs the pending driver call on the current store and runs
    the handler on to its next [await]. *)

Inductive task : Type :=
| AwaitFind (r : request) (m : countMap) (objectIds : list string)
    (* suspended at line 106 *)
| AwaitUpdate (r : request) (m : countMap) (objectIds : list string)
              (lessons : list lesson) (l : lesson) (rest : list lesson)
    (* suspended at line 121, in the iteration for [l] *)
| AwaitInsert (o : order)
    (* suspended at line 143 *)
| Done (resp : response).

(** Lines 95-105, up to the first [await]. *)
Definition spawn (r : request) : task :=
  if negb (validate r) then Done AllFieldsRequired else
  match for_of (lessonIDs r) with
  | None => Done ServerError
  | Some ids =>
      let m := lessonCountMap ids in
      match map_ObjectId (keys m) with
      | None => Done ServerError
      | Some objectIds => AwaitFind r m objectIds
      end
  end.

(** Entering (or re-entering) the loop of lines 119-122. *)
Definition next_update (r : request) (m : countMap) (objectIds : list string)
    (lessons todo : list lesson) : task :=
  match todo with
  | [] => AwaitInsert (build_order r m objectIds lessons)
  | l :: rest => AwaitUpdate r m objectIds lessons l rest
  end.

Definition resume (db : store) (t : task) : store * task :=
  match t with
  | AwaitFind r m objectIds =>
      let lessons := find_in objectIds (lessonsCollection db) in
      match check m lessons with
      | Some resp => (db, Done resp)
      | None => (db, next_update r m objectIds lessons lessons)
      end
  | AwaitUpdate r m objectIds lessons l rest =>
      (mkStore (updateOne_inc (_id l) (neg_needed (lookup m (_id l)))
                              (lessonsCollection db))
               (ordersCollection db),
       next_update r m objectIds lessons rest)
  | AwaitInsert o =>
      (mkStore (lessonsCollection db) (ordersCollection db ++ [o]),
       Done (OrderSaved (List.length (ordersCollection db))))
  | Done resp => (db, Done resp)
  end.

(** One handler resumed [n] times in a row. *)
Fixpoint resume_n (n : nat) (db : store) (t : task) : store * task :=
  match n with
  | O => (db, t)
  | S n' => let (db', t') := resume db t in resume_n n' db' t'
  end.

(** A schedule names, step by step, which of the handlers in flight is
    resumed next (by position; a position out of range is a no-op). *)
Fixpoint resume_nth (i : nat) (db : store) (ts : list task)
  : store * list task :=
  match ts, i with
  | [], _ => (db, [])
  | t :: ts', O => let (db', t') := resume db t in (db', t' :: ts')
  | t :: ts', S i' =>
      let (db', ts'') := resume_nth i' db ts' in (db', t :: ts'')
  end.

Fixpoint run (schedule : list nat) (db : store) (ts : list task)
  : store * list task :=
  match schedule with
  | [] => (db, ts)
  | i :: rest => let (db', ts') := resume_nth i db ts in run rest db' ts'
  end.

(** The inventory of the lesson with a given [_id]. *)
Fixpoint inventory_of (id : string) (ls : list lesson) : option number :=
  match ls with
  | [] => None
  | l :: ls' =>
      if (_id l =? id)%string then Some (availableInventory l)
      else inventory_of id ls'
  end.

(** ** Sample data for the examples *)

Definition idA : string := "aaaaaaaaaaaaaaaaaaaaaaaa".
Definition idB : string := "bbbbbbbbbbbbbbbbbbbbbbbb".
Definition idX : string := "0123456789abcdef01234567".

(** The identifier of B in upper-case hex: another spelling of the same
    ObjectId. *)
Definition idB_upper : string := "BBBBBBBBBBBBBBBBBBBBBBBB".

Definition lessonA (cap : Z) : lesson :=
  mkLesson idA "French" "PARIS" 1800 (Int cap).
Definition lessonB (cap : Z) : lesson :=
  mkLesson idB "Spanish" "MADRID" 1800 (Int cap).

Definition customer (ids : jsval) (spaces : jsval) : request :=
  mkRequest (JStr "Ada") (JStr "07000000000") (JStr "1 High St")
            (JStr "London") (JStr "LDN") (JStr "N1") ids spaces.

(** ** [GET /api/search] (lines 58-72)

    The regular-expression engine and the string-to-number conversion are
    JavaScript's (and, for the match itself, the store's); the handler is
    modelled over them. *)

(** The value of [Number(q)] for a string [q], as far as a comparison with
    an integer field can tell: not a number, an integer, or a number that
    equals no integer (a fraction or an infinity). *)
Inductive numeric : Type :=
| NotNumeric
| Integer (z : Z)
| NonInteger.

(** [isNaN(q)] *)
Definition isNaN (n : numeric) : bool :=
  match n with
  | NotNumeric => true
  | _ => false
  end.

(** A clause of the [$or] query. *)
Inductive clause : Type :=
| TitleRegex (regex : string -> bool)
| LocationRegex (regex : string -> bool)
| PriceEq (n : numeric)
| InventoryEq (n : numeric).

Definition satisfies (l : lesson) (c : clause) : bool :=
  match c with
  | TitleRegex regex => regex (title l)
  | LocationRegex regex => regex (location l)
  | PriceEq (Integer z) => price l =? z
  | InventoryEq (Integer z) =>
      match availableInventory l with
      | Int a => a =? z
      | NaN => false
      end
  | PriceEq _ | InventoryEq _ => false
  end.

(** [lessonsCollection.find({ $or: clauses })] *)
Definition find_or (clauses : list clause) (ls : list lesson) : list lesson :=
  filter (fun l => existsb (satisfies l) clauses) ls.

(** The query is a JavaScript string: a sequence of 16-bit code units. *)
Definition code_units : Type := list N.

(** The code units of a literal written in ASCII. *)
Definition units (s : string) : code_units :=
  map N_of_ascii (list_ascii_of_string s).

(** The white space and line terminators of ECMAScript, which
    [String.prototype.trim] strips: U+0009 to U+000D, U+0020, U+00A0,
    U+1680, U+2000 to U+200A, U+2028, U+2029, U+202F, U+205F, U+3000 and
    U+FEFF. *)
Definition is_white_space (c : N) : bool :=
  ((9 <=? c) && (c <=? 13) || (c =? 32) || (c =? 160) || (c =? 5760)
   || (8192 <=? c) && (c <=? 8202) || (c =? 8232) || (c =? 8233)
   || (c =? 8239) || (c =? 8287) || (c =? 12288) || (c =? 65279))%N.

Fixpoint trim_start (cs : code_units) : code_units :=
  match cs with
  | [] => []
  | c :: cs' => if is_white_space c then trim_start cs' else cs
  end.

(** [String.prototype.trim] *)
Definition trim (s : code_units) : code_units :=
  rev (trim_start (rev (trim_start s))).

Inductive search_response : Type :=
| Results (ls : list lesson)
| SearchError.
    (* 500: [new RegExp] threw *)

Section Search.

(** [new RegExp(pattern, flags)] followed by the match of a string field
    against it; [None] is the [SyntaxError] of an ill-formed pattern. *)
Variable RegExp : code_units -> string -> option (string -> bool).

(** [Number(q)] *)
Variable Number : code_units -> numeric.

(** Lines 63-65: the query document. *)
Definition build_query (regex : string -> bool) (q : code_units)
  : list clause :=
  [TitleRegex regex; LocationRegex regex]
  ++ (if negb (isNaN (Number q))
      then [PriceEq (Number q); InventoryEq (Number q)]
      else []).

(** [req.query.q] is [None] when the parameter is absent (a parameter
    given several times, which Express parses to an array, is outside the
    model).  [!q] holds of the empty string only. *)
Definition search (db : store) (param : option code_units) : search_response :=
  let q := trim (match param with Some s => s | None => [] end) in
  match q with
  | [] => Results (lessonsCollection db)
  | _ :: _ =>
      match RegExp q "i" with
      | None => SearchError
      | Some regex =>
          Results (find_or (build_query regex q) (lessonsCollection db))
      end
  end.

End Search.

(** An engine for the examples.  On a pattern of ASCII letters, digits and
    spaces a regular expression with the flag ["i"] is a case-insensitive
    substring search, and a string of decimal digits converts to the
    integer it writes; the instance refuses every other pattern, as
    JavaScript refuses the pattern ["("] with "SyntaxError: Unterminated
    group".  Other patterns, flags and numerals are outside this
    instance. *)

Definition is_digit (c : N) : bool := ((48 <=? c) && (c <=? 57))%N.

Definition is_plain (c : N) : bool :=
  (is_digit c || (c =? 32) || (65 <=? c) && (c <=? 90)
   || (97 <=? c) && (c <=? 122))%N.

Definition fold_case (c : N) : N :=
  if ((65 <=? c) && (c <=? 90))%N then (c + 32)%N else c.

Fixpoint prefix_ci (p s : code_units) : bool :=
  match p, s with
  | [], _ => true
  | _ :: _, [] => false
  | a :: p', b :: s' => (fold_case a =? fold_case b)%N && prefix_ci p' s'
  end.

Fixpoint contains_ci (p s : code_units) : bool :=
  prefix_ci p s ||
  match s with
  | [] => false
  | _ :: s' => contains_ci p s'
  end.

Definition plain_RegExp (q : code_units) (flags : string)
  : option (string -> bool) :=
  if (forallb is_plain q && (flags =? "i")%string)%bool
  then Some (fun s => contains_ci q (units s))
  else None.

Definition decimal_Number (q : code_units) : numeric :=
  if forallb is_digit q
  then Integer (fold_left (fun acc c => 10 * acc + Z.of_N (c - 48)) q 0)
  else NotNumeric.

Definition catalog : list lesson :=
  [ mkLesson idA "French" "PARIS" 1800 (Int 5);
    mkLesson idB "Spanish" "MADRID" 1800 (Int 7);
    mkLesson idX "Mauritian Creole" "Flic-en-Flac" 1500 (Int 10) ].


(** ** Vocabulary of the statements *)

(** A string in the form an ObjectId prints itself: the identifiers the
    API hands out, and the [_id]s of a collection. *)
Definition canonical (s : string) : Prop := ObjectId s = Some s.

(** A string [new ObjectId] accepts. *)
Definition well_formed (s : string) : Prop := ObjectId s <> None.

(** The six customer fields pass line 97. *)
Definition customer_fields_ok (r : request) : bool :=
  truthy (name r) && truthy (phoneNumber r) && truthy (address r)
  && truthy (city r) && truthy (state r) && truthy (zip r).

(** The eight fields line 97 tests, in its order. *)
Definition required_fields (r : request) : list jsval :=
  [name r; phoneNumber r; address r; city r; state r; zip r;
   lessonIDs r; numberOfSpaces r].

(** Does [new ObjectId(id)] give the [_id] [oid]?  This is how the [find]
    of line 106 resolves a listed identifier, in either case of the hex
    digits. *)
Definition resolves_to (oid : string) (id : string) : bool :=
  match ObjectId id with
  | Some o => (o =? oid)%string
  | None => false
  end.

(** One title per requested unit, in the order of the request: for each
    identifier of [ids] in turn, the title of the lesson it resolves to
    (nothing for an identifier that resolves to no lesson). *)
Definition titles_in_request_order (ls : list lesson) (ids : list string)
  : list string :=
  flat_map (fun id => map title (filter (fun l => resolves_to (_id l) id) ls))
           ids.

(** The units an order asks of the lesson with [_id] [oid]: the listed
    identifiers that resolve to it. *)
Definition units_asked (ids : list string) (oid : string) : nat :=
  List.length (filter (resolves_to oid) ids).

(** A lesson is short for an order when the order asks units of it and its
    inventory is a number smaller than the units asked. *)
Definition short (ids : list string) (l : lesson) : Prop :=
  exists a, availableInventory l = Int a
            /\ (0 < units_asked ids (_id l))%nat
            /\ a < Z.of_nat (units_asked ids (_id l)).

(** Does the identifier resolve to a lesson of the collection? *)
Definition names_a_lesson (ls : list lesson) (id : string) : bool :=
  existsb (fun l => resolves_to (_id l) id) ls.

(** Every inventory is a number, and not a negative one. *)
Definition all_in_stock (ls : list lesson) : Prop :=
  forall l, In l ls -> exists a, availableInventory l = Int a /\ 0 <= a.

(** A request whose [lessonIDs] is an array spells the identifiers it
    lists as ObjectIds print themselves. *)
Definition spelled_canonically (r : request) : Prop :=
  forall ids, lessonIDs r = JArr ids -> Forall canonical ids.

(** Does a lesson with this identifier exist? *)
Definition exists_in (ls : list lesson) (id : string) : bool :=
  existsb (fun l => (_id l =? id)%string) ls.

(** The request with its [lessonIDs] replaced. *)
Definition with_lessonIDs (r : request) (ids : list string) : request :=
  mkRequest (name r) (phoneNumber r) (address r) (city r) (state r) (zip r)
            (JArr ids) (numberOfSpaces r).

(** No lesson holds a negative number (an inventory that is [NaN] is not
    constrained). *)
Definition never_negative (ls : list lesson) : Prop :=
  forall l a, In l ls -> availableInventory l = Int a -> 0 <= a.

(** Orders handled one after the other, none in flight with another. *)
Definition serial (rs : list request) (db : store) : store :=
  fold_left (fun d r => fst (placeOrder None d r)) rs db.

(** A response that is not the 200. *)
Definition failed (resp : response) : bool :=
  match resp with
  | OrderSaved _ => false
  | _ => true
  end.

(** ** [GET /api/lessons] and [GET /api/lessons/:id] (lines 37-55) *)

Inductive lessons_response : Type :=
| LessonList (ls : list lesson)
| LessonsError.
    (* 500: [find] threw *)

(** [driver_throws] tells whether the driver call of this request throws. *)
Definition getLessons (driver_throws : bool) (db : store) : lessons_response :=
  if driver_throws then LessonsError else LessonList (lessonsCollection db).

Inductive lesson_response : Type :=
| LessonFound (l : lesson)
| LessonNotFound
    (* 404 "Lesson not found" *)
| LessonError.
    (* 500 *)

(** [lessonsCollection.findOne({ _id: oid })]: the first document with
    that [_id], [None] for [null]. *)
Definition findOne (oid : string) (ls : list lesson) : option lesson :=
  find (fun l => (_id l =? oid)%string) ls.

(** Lines 47-55.  [req.params.id] is a string; [new ObjectId] is evaluated
    before the driver is called. *)
Definition getLesson (driver_throws : bool) (db : store) (id : string)
  : lesson_response :=
  match ObjectId id with
  | None => LessonError
  | Some oid =>
      if driver_throws then LessonError else
      match findOne oid (lessonsCollection db) with
      | None => LessonNotFound
      | Some l => LessonFound l
      end
  end.

(** ** [POST /api/seed] (lines 75-90) *)

(** A sample document as line 77-83 write it. *)
Record sample_lesson : Type := mkSample {
  sample_title : string;
  sample_location : string;
  sample_price : Z;
  sample_availableInventory : Z;
  sample_description : string;
  sample_continent : string;
  sample_image : string
}.

Definition sample : list sample_lesson :=
  [ mkSample "English Language" "BIRMINGHAM" 2000 7
             "Dive in and uplift your English literature." "Europe"
             "images/ukflag.webp";
    mkSample "French" "PARIS" 1800 5
             "Learn rich French dialects." "Europe" "images/frenchflag.webp";
    mkSample "Spanish" "MADRID" 1800 7
             "Learn Spanish dialects." "Europe" "images/spanishflag.webp";
    mkSample "Chinese" "HONG-KONG" 1800 10
             "Learn Chinese dialects." "Asia" "images/chineseflag.webp";
    mkSample "Mauritian Creole" "Flic-en-Flac" 1500 10
             "Learn Mauritian dialects." "Africa" "images/mauritiusflag.webp" ].

(** The document as the store model keeps it: the fields some handler
    reads ([description], [continent] and [image] are read by none). *)
Definition stored (id : string) (d : sample_lesson) : lesson :=
  mkLesson id (sample_title d) (sample_location d) (sample_price d)
           (Int (sample_availableInventory d)).

(** [insertMany(docs)]: the driver gives every document an [_id] of its
    own making; [new_id k] is the [k]-th identifier it makes. *)
Fixpoint insertMany (new_id : nat -> string) (k : nat)
    (docs : list sample_lesson) : list lesson :=
  match docs with
  | [] => []
  | d :: docs' => stored (new_id k) d :: insertMany new_id (S k) docs'
  end.

Inductive seed_response : Type :=
| Inserted (insertedCount : nat)
| SeedError.
    (* 500 *)

Definition seed (driver_throws : bool) (new_id : nat -> string) (db : store)
  : store * seed_response :=
  if driver_throws then (db, SeedError)
  else (mkStore (lessonsCollection db ++ insertMany new_id 0 sample)
                (ordersCollection db),
        Inserted (List.length sample)).

(** ** More vocabulary *)

(** What an order leaves alone in a lesson. *)
Definition fixed_fields (l : lesson) : string * string * string * Z :=
  (_id l, title l, location l, price l).

(** Orders handled one after the other, each with its own driver
    failure (or none). *)
Definition serial_with_failures (rs : list (option nat * request))
    (db : store) : store :=
  fold_left (fun d fr => fst (placeOrder (fst fr) d (snd fr))) rs db.

(** The units of the lesson with [_id] [oid] sold by orders handled one
    after the other: the units asked of it by the orders that were
    saved. *)
Fixpoint units_sold (rs : list (option nat * request)) (db : store)
    (oid : string) : nat :=
  match rs with
  | [] => 0%nat
  | fr :: rs' =>
      let out := placeOrder (fst fr) db (snd fr) in
      ((match snd out, lessonIDs (snd fr) with
        | OrderSaved _, JArr ids => units_asked ids oid
        | _, _ => 0
        end)
       + units_sold rs' (fst out) oid)%nat
  end.

(** The spaces a collection holds in all. *)
Definition units_held (ls : list lesson) : Z :=
  fold_right (fun l acc => match availableInventory l with
                           | Int a => a + acc
                           | NaN => acc
                           end) 0 ls.

(** ** Validation *)

Lemma validate_required_fields (r : request) :
  validate r = forallb truthy (required_fields r).
Proof.
  unfold validate, required_fields; simpl.
  rewrite andb_true_r, !andb_assoc; reflexivity.
Qed.

Lemma forallb_false_exists (A : Type) (f : A -> bool) (l : list A) :
  forallb f l = false <-> exists x, In x l /\ f x = false.
Proof.
  induction l as [|x l IH]; simpl.
  - split; [discriminate | intros (x & [] & _)].
  - rewrite andb_false_iff, IH. split.
    + intros [H | (y & Hin & Hy)]; [exists x | exists y]; auto.
    + intros (y & [-> | Hin] & Hy); [left | right; exists y]; auto.
Qed.

Lemma validate_false_iff (r : request) :
  validate r = false <-> exists v, In v (required_fields r) /\ truthy v = false.
Proof. rewrite validate_required_fields. apply forallb_false_exists. Qed.

Lemma validate_split (r : request) :
  validate r
  = customer_fields_ok r && truthy (lessonIDs r) && truthy (numberOfSpaces r).
Proof. reflexivity. Qed.

(** ** The demand map counts occurrences *)

Lemma lookup_bump (m : countMap) (id k : string) :
  lookup (bump m id) k
  = if (id =? k)%string then Some (S (iterations (lookup m id)))
    else lookup m k.
Proof.
  induction m as [|[k' n] m IH]; simpl.
  - reflexivity.
  - destruct (k' =? id)%string eqn:E1; simpl.
    + apply String.eqb_eq in E1; subst k'.
      destruct (id =? k)%string; reflexivity.
    + rewrite IH. destruct (id =? k)%string eqn:E2.
      * apply String.eqb_eq in E2; subst k. rewrite E1. reflexivity.
      * reflexivity.
Qed.

Lemma lookup_count_steps (ids : list string) :
  forall (m : countMap) (k : string),
    k <> "__proto__" ->
    lookup (fold_left count_step ids m) k
    = match count_occ string_dec ids k with
      | O => lookup m k
      | S c => Some (S c + iterations (lookup m k))%nat
      end.
Proof.
  induction ids as [|id ids IH]; intros m k Hk; simpl.
  - reflexivity.
  - unfold count_step at 2. destruct (id =? "__proto__")%string eqn:Ep.
    + apply String.eqb_eq in Ep; subst id.
      destruct (string_dec "__proto__" k) as [e|_]; [congruence|].
      apply IH; assumption.
    + rewrite (IH _ _ Hk), lookup_bump.
      destruct (string_dec id k) as [->|Hne].
      * rewrite String.eqb_refl.
        destruct (count_occ string_dec ids k); simpl; f_equal; lia.
      * apply String.eqb_neq in Hne. rewrite Hne. reflexivity.
Qed.

(** The count stored for an identifier is the number of its occurrences in
    [lessonIDs]; an identifier that does not occur has no entry. *)
Lemma lookup_lessonCountMap (ids : list string) (k : string) :
  k <> "__proto__" ->
  lookup (lessonCountMap ids) k
  = match count_occ string_dec ids k with
    | O => None
    | S c => Some (S c)
    end.
Proof.
  intros Hk. unfold lessonCountMap. rewrite lookup_count_steps by assumption.
  simpl. destruct (count_occ string_dec ids k); [reflexivity|].
  f_equal. lia.
Qed.

Lemma iterations_lessonCountMap (ids : list string) (k : string) :
  k <> "__proto__" ->
  iterations (lookup (lessonCountMap ids) k) = count_occ string_dec ids k.
Proof.
  intros Hk. rewrite lookup_lessonCountMap by assumption.
  destruct (count_occ string_dec ids k); reflexivity.
Qed.

Lemma lookup_None_keys (m : countMap) (k : string) :
  lookup m k = None <-> ~ In k (keys m).
Proof.
  induction m as [|[k' n] m IH]; simpl.
  - tauto.
  - destruct (k' =? k)%string eqn:E.
    + apply String.eqb_eq in E. split; [discriminate | intros H; tauto].
    + apply String.eqb_neq in E. rewrite IH. tauto.
Qed.

Lemma keys_bump (m : countMap) (id : string) :
  keys (bump m id)
  = if existsb (fun k => (k =? id)%string) (keys m) then keys m
    else (keys m ++ [id])%list.
Proof.
  induction m as [|[k n] m IH]; simpl.
  - reflexivity.
  - destruct (k =? id)%string; simpl; [reflexivity|].
    fold (keys m). rewrite IH.
    destruct (existsb _ (keys m)); reflexivity.
Qed.

Lemma existsb_eqb_In (id : string) (ks : list string) :
  existsb (fun k => (k =? id)%string) ks = true <-> In id ks.
Proof.
  rewrite existsb_exists. split.
  - intros (k & Hin & E). apply String.eqb_eq in E. congruence.
  - intros H. exists id. split; [assumption | apply String.eqb_refl].
Qed.

Lemma In_keys_count_steps (ids : list string) :
  forall (m : countMap) (k : string),
    In k (keys (fold_left count_step ids m))
    <-> In k (keys m) \/ (In k ids /\ k <> "__proto__").
Proof.
  induction ids as [|id ids IH]; intros m k; simpl.
  - tauto.
  - rewrite IH. unfold count_step.
    destruct (id =? "__proto__")%string eqn:Ep.
    + apply String.eqb_eq in Ep. subst id.
      split; [tauto|]. intros [H | [[H | H] Hne]]; try tauto. congruence.
    + apply String.eqb_neq in Ep. rewrite keys_bump.
      destruct (existsb _ (keys m)) eqn:Ex.
      * apply existsb_eqb_In in Ex.
        split; [tauto|]. intros [H | [[H | H] Hne]]; try tauto.
        subst k. tauto.
      * rewrite in_app_iff. simpl.
        split; [|intros [H | [[H | H] Hne]]; tauto].
        intros [[H | [H | []]] | H]; try tauto.
        subst k. tauto.
Qed.

Lemma In_keys_lessonCountMap (ids : list string) (k : string) :
  In k (keys (lessonCountMap ids)) <-> In k ids /\ k <> "__proto__".
Proof.
  unfold lessonCountMap. rewrite In_keys_count_steps. simpl. tauto.
Qed.

Lemma NoDup_keys_count_steps (ids : list string) :
  forall m : countMap,
    NoDup (keys m) -> NoDup (keys (fold_left count_step ids m)).
Proof.
  induction ids as [|id ids IH]; intros m Hm; simpl.
  - assumption.
  - apply IH. unfold count_step.
    destruct (id =? "__proto__")%string; [assumption|].
    rewrite keys_bump. destruct (existsb _ (keys m)) eqn:Ex; [assumption|].
    assert (Hnot : ~ In id (keys m)).
    { intros H. apply existsb_eqb_In in H. congruence. }
    apply NoDup_rev in Hm. rewrite <- (rev_involutive (keys m ++ [id])%list).
    apply NoDup_rev. rewrite rev_app_distr. simpl.
    constructor; [rewrite <- in_rev; assumption | assumption].
Qed.

(** [Object.keys(lessonCountMap)] lists every requested identifier once. *)
Lemma NoDup_keys_lessonCountMap (ids : list string) :
  NoDup (keys (lessonCountMap ids)).
Proof. apply NoDup_keys_count_steps. constructor. Qed.

(** ** ObjectId *)

Lemma ObjectId_lowercase (s o : string) :
  ObjectId s = Some o -> o = lowercase s.
Proof.
  unfold ObjectId. destruct (_ && _)%bool; congruence.
Qed.

Lemma canonical_not_proto (s : string) : canonical s -> s <> "__proto__".
Proof.
  intros Hc ->. unfold canonical in Hc. vm_compute in Hc. discriminate.
Qed.

Lemma map_ObjectId_In (ks os : list string) :
  map_ObjectId ks = Some os ->
  forall o, In o os <-> exists k, In k ks /\ ObjectId k = Some o.
Proof.
  revert os. induction ks as [|k ks IH]; intros os H o; simpl in H.
  - injection H as <-. simpl. split; [tauto | intros (k & [] & _)].
  - destruct (ObjectId k) as [o1|] eqn:E1; [|discriminate].
    destruct (map_ObjectId ks) as [os1|] eqn:E2; [|discriminate].
    injection H as <-. simpl. rewrite (IH os1 eq_refl o). split.
    + intros [<- | (k' & Hin & Hk')]; [exists k | exists k']; auto.
    + intros (k' & [<- | Hin] & Hk'); [left; congruence | right; eauto].
Qed.

Lemma map_ObjectId_canonical (ks : list string) :
  Forall canonical ks -> map_ObjectId ks = Some ks.
Proof.
  induction 1 as [|k ks Hk _ IH]; simpl.
  - reflexivity.
  - rewrite Hk, IH. reflexivity.
Qed.

(** ** The batch read and the availability check *)

Lemma find_in_In (ids : list string) (ls : list lesson) (l : lesson) :
  In l (find_in ids ls) <-> In l ls /\ In (_id l) ids.
Proof.
  unfold find_in. rewrite filter_In, existsb_exists. split.
  - intros (Hin & k & Hk & E). apply String.eqb_eq in E. subst k. auto.
  - intros (Hin & Hk). split; [assumption|].
    exists (_id l). split; [assumption | apply String.eqb_refl].
Qed.

Lemma check_rejects (m : countMap) (lessons : list lesson) :
  (exists l n a, In l lessons /\ lookup m (_id l) = Some n
                 /\ availableInventory l = Int a /\ a < Z.of_nat n) ->
  exists t n a, check m lessons = Some (NotEnoughSpaces t n a).
Proof.
  induction lessons as [|l0 lessons IH]; intros (l & n & a & Hin & Hl & Ha & Hlt).
  - destruct Hin.
  - simpl. destruct Hin as [-> | Hin].
    + rewrite Ha, Hl.
      assert (E : (a <? Z.of_nat n) = true) by (apply Z.ltb_lt; assumption).
      rewrite E. eauto.
    + assert (IH' : exists t n a, check m lessons = Some (NotEnoughSpaces t n a))
        by (apply IH; eauto 8).
      destruct (availableInventory l0) as [|a0]; [assumption|].
      destruct (lookup m (_id l0)) as [n0|]; [|assumption].
      destruct (a0 <? Z.of_nat n0); eauto.
Qed.

Lemma check_passes (m : countMap) (lessons : list lesson) :
  check m lessons = None <->
  (forall l n a, In l lessons -> lookup m (_id l) = Some n ->
                 availableInventory l = Int a -> Z.of_nat n <= a).
Proof.
  induction lessons as [|l0 lessons IH]; simpl.
  - split; [intros _ l n a [] | reflexivity].
  - destruct (availableInventory l0) as [|a0] eqn:Ea.
    + rewrite IH. split.
      * intros H l n a [<- | Hin] Hl Ha; [congruence | eauto].
      * intros H l n a Hin. apply H. auto.
    + destruct (lookup m (_id l0)) as [n0|] eqn:En.
      * destruct (a0 <? Z.of_nat n0) eqn:Elt.
        -- split; [discriminate|]. intros H.
           apply Z.ltb_lt in Elt. specialize (H l0 n0 a0 (or_introl eq_refl) En Ea).
           lia.
        -- apply Z.ltb_ge in Elt. rewrite IH. split.
           ++ intros H l n a [<- | Hin] Hl Ha; [congruence | eauto].
           ++ intros H l n a Hin. apply H. auto.
      * rewrite IH. split.
        -- intros H l n a [<- | Hin] Hl Ha; [congruence | eauto].
        -- intros H l n a Hin. apply H. auto.
Qed.

(** The 400 names a found lesson that is short, with the count asked of
    it and the inventory read. *)
Lemma check_offender (m : countMap) (lessons : list lesson) (resp : response) :
  check m lessons = Some resp ->
  exists l n a,
    In l lessons /\ lookup m (_id l) = Some n
    /\ availableInventory l = Int a /\ a < Z.of_nat n
    /\ resp = NotEnoughSpaces (title l) n a.
Proof.
  induction lessons as [|l0 lessons IH]; simpl; [discriminate|].
  intros H.
  assert (Hrest : check m lessons = Some resp ->
                  exists l n a,
                    (l0 = l \/ In l lessons) /\ lookup m (_id l) = Some n
                    /\ availableInventory l = Int a /\ a < Z.of_nat n
                    /\ resp = NotEnoughSpaces (title l) n a).
  { intros H'. destruct (IH H') as (l & n & a & Hin & Hrest).
    exists l, n, a. tauto. }
  destruct (availableInventory l0) as [|a0] eqn:Ea; [auto|].
  destruct (lookup m (_id l0)) as [n0|] eqn:En; [|auto].
  destruct (a0 <? Z.of_nat n0) eqn:Elt; [|auto].
  injection H as <-. apply Z.ltb_lt in Elt.
  exists l0, n0, a0. auto 6.
Qed.

Lemma check_response (m : countMap) (lessons : list lesson) (resp : response) :
  check m lessons = Some resp ->
  exists t n a, resp = NotEnoughSpaces t n a.
Proof.
  induction lessons as [|l0 lessons IH]; simpl; [discriminate|].
  destruct (availableInventory l0) as [|a0]; [assumption|].
  destruct (lookup m (_id l0)) as [n0|]; [|assumption].
  destruct (a0 <? Z.of_nat n0); [|assumption].
  intros H. injection H as <-. eauto.
Qed.

Lemma find_in_nil (ls : list lesson) : find_in [] ls = [].
Proof.
  unfold find_in. induction ls as [|l ls IH]; simpl; auto.
Qed.

(** C10.  Line 97 rejects a request as soon as one of the eight required
    fields is falsy, present or not: the handler answers 400 "All fields
    are required." and leaves the store as it was.  A [numberOfSpaces] of 0
    is such a field. *)
Theorem falsy_field_is_rejected :
  forall (fail_at : option nat) (db : store) (r : request) (v : jsval),
    In v (required_fields r) -> truthy v = false ->
    placeOrder fail_at db r = (db, AllFieldsRequired).
Proof.
  intros fail_at db r v Hin Hv.
  assert (Hval : validate r = false) by (apply validate_false_iff; eauto).
  unfold placeOrder. rewrite Hval. reflexivity.
Qed.

Lemma falsy_field_is_rejected_witness :
  let r := customer (JArr [idA]) (JNum 0) in
  let db := mkStore catalog [] in
  In (numberOfSpaces r) (required_fields r)
  /\ truthy (numberOfSpaces r) = false
  /\ placeOrder None db r = (db, AllFieldsRequired).
Proof.
  assert (Hin : In (JNum 0) (required_fields (customer (JArr [idA]) (JNum 0))))
    by (simpl; do 7 right; left; reflexivity).
  exact (conj Hin (conj eq_refl
           (falsy_field_is_rejected None (mkStore catalog [])
              (customer (JArr [idA]) (JNum 0)) (JNum 0) Hin eq_refl))).
Defined.

(** C5, the claim as stated fails: an order with an empty [lessonIDs]
    array is answered with 200, not with the 400 of line 98. *)
Lemma empty_lessonIDs_is_accepted :
  let r := customer (JArr []) (JNum 1) in
  let db := mkStore catalog [] in
  snd (placeOrder None db r) = OrderSaved 0
  /\ snd (placeOrder None db r) <> AllFieldsRequired.
Proof. intros r db. split; [reflexivity | vm_compute; discriminate]. Qed.

(** C5, amended.  A request whose [lessonIDs] is an empty array, its other
    fields truthy, passes line 97 because an empty array is truthy: the
    handler never answers "All fields are required." to it, and when no
    driver call throws it answers 200, leaves every lesson untouched and
    stores an order with no identifiers and no titles. *)
Theorem empty_lessonIDs_passes_validation :
  forall (fail_at : option nat) (db : store) (r : request),
    customer_fields_ok r = true ->
    truthy (numberOfSpaces r) = true ->
    lessonIDs r = JArr [] ->
    snd (placeOrder fail_at db r) <> AllFieldsRequired
    /\ placeOrder None db r
       = (mkStore (lessonsCollection db)
                  (ordersCollection db
                   ++ [mkOrder (name r) (phoneNumber r) (address r) (city r)
                               (state r) (zip r) [] [] (numberOfSpaces r)]),
          OrderSaved (List.length (ordersCollection db))).
Proof.
  intros fail_at db r Hc Hn Hids.
  assert (Hval : validate r = true).
  { rewrite validate_split, Hc, Hn, Hids. reflexivity. }
  unfold placeOrder. rewrite Hval, Hids. simpl.
  rewrite find_in_nil. simpl. split.
  - destruct (throws fail_at 0); simpl; [discriminate|].
    destruct (throws fail_at 1); simpl; discriminate.
  - reflexivity.
Qed.

Lemma empty_lessonIDs_passes_validation_witness :
  let r := customer (JArr []) (JNum 1) in
  let db := mkStore catalog [] in
  snd (placeOrder (Some 1%nat) db r) <> AllFieldsRequired
  /\ placeOrder None db r
     = (mkStore catalog
                [mkOrder (name r) (phoneNumber r) (address r) (city r)
                         (state r) (zip r) [] [] (JNum 1)],
        OrderSaved 0).
Proof.
  exact (empty_lessonIDs_passes_validation (Some 1%nat) (mkStore catalog [])
           (customer (JArr []) (JNum 1)) eq_refl eq_refl eq_refl).
Defined.

(** ** A single order *)

Lemma map_ObjectId_total (ks : list string) :
  Forall well_formed ks -> exists os, map_ObjectId ks = Some os.
Proof.
  induction 1 as [|k ks Hk _ (os & IH)]; simpl.
  - eauto.
  - unfold well_formed in Hk. destruct (ObjectId k) as [o|]; [|congruence].
    rewrite IH. eauto.
Qed.

Lemma well_formed_keys (ids : list string) :
  Forall well_formed ids -> Forall well_formed (keys (lessonCountMap ids)).
Proof.
  rewrite !Forall_forall. intros H k Hk.
  apply In_keys_lessonCountMap in Hk. apply H. tauto.
Qed.

Lemma validate_array (r : request) (ids : list string) :
  customer_fields_ok r = true ->
  truthy (numberOfSpaces r) = true ->
  lessonIDs r = JArr ids ->
  validate r = true.
Proof.
  intros Hc Hn Hids. rewrite validate_split, Hc, Hn, Hids. reflexivity.
Qed.

(** With the short line spelled as the store prints its identifier, an
    order is all-or-nothing across its lines: when some requested lesson
    has fewer available spaces than the order asks of it, the handler
    answers 400 "Not enough spaces ..." and the store is exactly what it
    was: no lesson, satisfiable line or not, has been decremented.  The
    response names a lesson of the store that is short, with the count the
    order asks of it and its inventory. *)
Theorem placeOrder_all_or_nothing :
  forall (db : store) (r : request) (ids : list string) (b : lesson) (a : Z),
    customer_fields_ok r = true ->
    truthy (numberOfSpaces r) = true ->
    lessonIDs r = JArr ids ->
    Forall well_formed ids ->
    In b (lessonsCollection db) ->
    canonical (_id b) ->
    In (_id b) ids ->
    availableInventory b = Int a ->
    a < Z.of_nat (count_occ string_dec ids (_id b)) ->
    exists l a',
      placeOrder None db r
      = (db, NotEnoughSpaces (title l) (count_occ string_dec ids (_id l)) a')
      /\ In l (lessonsCollection db)
      /\ availableInventory l = Int a'
      /\ a' < Z.of_nat (count_occ string_dec ids (_id l)).
Proof.
  intros db r ids b a Hc Hn Hids Hwf Hb Hcan Hline Ha Hlt.
  unfold placeOrder.
  rewrite (validate_array r ids Hc Hn Hids), Hids. simpl.
  destruct (map_ObjectId_total _ (well_formed_keys ids Hwf)) as (os & Hos).
  rewrite Hos.
  assert (Hproto : _id b <> "__proto__") by (apply canonical_not_proto; assumption).
  destruct (check_rejects (lessonCountMap ids)
              (find_in os (lessonsCollection db))) as (t & n & a' & Hck).
  - exists b, (count_occ string_dec ids (_id b)), a.
    repeat split; try assumption.
    + apply find_in_In. split; [assumption|].
      apply (map_ObjectId_In _ _ Hos). exists (_id b). split.
      * apply In_keys_lessonCountMap. auto.
      * exact Hcan.
    + rewrite lookup_lessonCountMap by assumption.
      destruct (count_occ string_dec ids (_id b)) eqn:E; [|reflexivity].
      apply (count_occ_In string_dec) in Hline. lia.
  - rewrite Hck.
    destruct (check_offender _ _ _ Hck) as (l & k & z & Hl & Hk & Hz & Hlt' & E).
    apply find_in_In in Hl. destruct Hl as [Hl Hlos].
    assert (Hcount : k = count_occ string_dec ids (_id l)).
    { assert (Hkey : In (_id l) (keys (lessonCountMap ids))).
      { destruct (in_dec string_dec (_id l) (keys (lessonCountMap ids)))
          as [Hin|Hout]; [assumption|].
        apply lookup_None_keys in Hout. congruence. }
      apply In_keys_lessonCountMap in Hkey.
      rewrite <- (iterations_lessonCountMap ids (_id l)) by tauto.
      rewrite Hk. reflexivity. }
    subst k. exists l, z. rewrite E. auto.
Qed.

Lemma placeOrder_all_or_nothing_witness :
  let db := mkStore [lessonA 5; lessonB 2] [] in
  let ids := [idA; idA; idA; idB; idB; idB; idB; idB; idB; idB; idB; idB; idB] in
  exists l a',
    placeOrder None db (customer (JArr ids) (JNum 13))
    = (db, NotEnoughSpaces (title l) (count_occ string_dec ids (_id l)) a')
    /\ In l (lessonsCollection db)
    /\ availableInventory l = Int a'
    /\ a' < Z.of_nat (count_occ string_dec ids (_id l)).
Proof.
  intros db ids.
  apply (placeOrder_all_or_nothing db (customer (JArr ids) (JNum 13)) ids
           (lessonB 2) 2); try reflexivity.
  - repeat constructor; unfold well_formed; vm_compute; discriminate.
  - simpl. right. left. reflexivity.
  - simpl. do 3 right. left. reflexivity.
Defined.

(** The example of the specification: A has 5 spaces, B has 2, the order
    asks for 3 of A and 10 of B. *)
Example atomicity_example :
  let db := mkStore [lessonA 5; lessonB 2] [] in
  placeOrder None db
    (customer (JArr [idA; idB; idA; idB; idA; idB; idB; idB; idB; idB; idB;
                     idB; idB]) (JNum 13))
  = (db, NotEnoughSpaces "Spanish" 10 2).
Proof. reflexivity. Qed.

(** C1, the code at the failing input.  The example of the specification
    with the identifier of B written in upper-case hex, which
    [new ObjectId] reads as the [_id] of B.  Line 105 resolves it and the
    [find] returns B, but lines 110, 120 and 126 look the count up under
    the lower-case [lesson._id.toString()], where the demand map has no
    entry: [needed] is [undefined], the check of line 111 is false, and the
    order that asks 10 spaces of a lesson holding 2 is saved.  The
    satisfiable line is decremented (A is left with 2) and the inventory of
    B becomes [NaN]. *)
Theorem upper_case_short_line_is_not_refused :
  let db := mkStore [lessonA 5; lessonB 2] [] in
  let ids := ([idA; idA; idA] ++ repeat idB_upper 10)%list in
  let out := placeOrder None db (customer (JArr ids) (JNum 13)) in
  ObjectId idB_upper = Some idB
  /\ units_asked ids idB = 10%nat
  /\ snd out = OrderSaved 0
  /\ inventory_of idA (lessonsCollection (fst out)) = Some (Int 2)
  /\ inventory_of idB (lessonsCollection (fst out)) = Some NaN
  /\ map o_lessonNames (ordersCollection (fst out))
     = [["French"; "French"; "French"]].
Proof. intros db ids out. repeat split. Qed.

Lemma inventory_of_updateOne (id id' : string) (d : number) (ls : list lesson) :
  inventory_of id (updateOne_inc id' d ls)
  = if (id' =? id)%string
    then option_map (fun a => inc a d) (inventory_of id ls)
    else inventory_of id ls.
Proof.
  induction ls as [|l ls IH]; simpl.
  - destruct (id' =? id)%string; reflexivity.
  - destruct (_id l =? id')%string eqn:E1; simpl.
    + apply String.eqb_eq in E1. rewrite E1.
      destruct (id' =? id)%string; reflexivity.
    + rewrite IH. destruct (id' =? id)%string eqn:E2; [|reflexivity].
      apply String.eqb_eq in E2. subst id'. rewrite E1. reflexivity.
Qed.

Lemma inventory_of_In (ls : list lesson) (l : lesson) :
  NoDup (map _id ls) -> In l ls ->
  inventory_of (_id l) ls = Some (availableInventory l).
Proof.
  induction ls as [|l0 ls IH]; simpl; intros Hnd Hin; [destruct Hin|].
  inversion Hnd as [|? ? Hnot Hnd']; subst.
  destruct Hin as [-> | Hin].
  - rewrite String.eqb_refl. reflexivity.
  - destruct (_id l0 =? _id l)%string eqn:E.
    + apply String.eqb_eq in E. exfalso. apply Hnot. rewrite E.
      apply in_map. assumption.
    + apply IH; assumption.
Qed.







(** ** What a response tells about the run *)

(** A 200 response: every stage of the handler went through. *)
Lemma placeOrder_saved (fail_at : option nat) (db db' : store) (r : request)
    (n : nat) :
  placeOrder fail_at db r = (db', OrderSaved n) ->
  exists ids os ls',
    validate r = true
    /\ for_of (lessonIDs r) = Some ids
    /\ map_ObjectId (keys (lessonCountMap ids)) = Some os
    /\ check (lessonCountMap ids) (find_in os (lessonsCollection db)) = None
    /\ update_loop fail_at 1 (lessonCountMap ids)
         (find_in os (lessonsCollection db)) (lessonsCollection db)
       = (ls', true)
    /\ db' = mkStore ls'
               (ordersCollection db
                ++ [build_order r (lessonCountMap ids) os
                      (find_in os (lessonsCollection db))])
    /\ n = List.length (ordersCollection db).
Proof.
  unfold placeOrder. intros H.
  destruct (validate r) eqn:Ev; simpl in H; [|discriminate].
  destruct (for_of (lessonIDs r)) as [ids|] eqn:Ei; [|discriminate].
  destruct (map_ObjectId (keys (lessonCountMap ids))) as [os|] eqn:Eo;
    [|discriminate].
  destruct (throws fail_at 0); [discriminate|].
  destruct (check _ _) as [resp|] eqn:Eck.
  - destruct (check_response _ _ _ Eck) as (t & k & a & ->). discriminate.
  - destruct (update_loop _ _ _ _ _) as [ls' finished] eqn:Eup.
    destruct finished; simpl in H; [|discriminate].
    destruct (throws fail_at _); [discriminate|].
    injection H as <- <-. exists ids, os, ls'. repeat split; auto.
Qed.

Lemma update_loop_finishes (m : countMap) (todo : list lesson) :
  forall (k : nat) (ls : list lesson),
    snd (update_loop None k m todo ls) = true.
Proof.
  induction todo as [|l todo IH]; intros k ls; simpl; [reflexivity|].
  apply IH.
Qed.

(** C3, the claim as stated fails: when the [insertOne] of line 143 throws,
    the handler answers 500 and the decrement of line 121 stays in the
    store. *)
Lemma failed_insert_keeps_the_decrement :
  let db := mkStore [lessonA 5] [] in
  let out := placeOrder (Some 2%nat) db (customer (JArr [idA]) (JNum 1)) in
  snd out = ServerError
  /\ inventory_of idA (lessonsCollection db) = Some (Int 5)
  /\ inventory_of idA (lessonsCollection (fst out)) = Some (Int 4)
  /\ fst out <> db.
Proof.
  intros db out. repeat split. vm_compute. discriminate.
Qed.

(** C3, amended.  A call that does not answer 200 has stored no order.
    When the answer is one of the two 400s, or when no driver call later
    than the [find] threw (so that a 500 comes from a malformed identifier,
    a [lessonIDs] that cannot be iterated or the [find] itself), the whole
    store, every inventory included, is what it was before the call. *)
Theorem failure_leaves_no_order :
  forall (fail_at : option nat) (db db' : store) (r : request)
         (resp : response),
    placeOrder fail_at db r = (db', resp) ->
    failed resp = true ->
    ordersCollection db' = ordersCollection db
    /\ (resp <> ServerError -> db' = db)
    /\ (fail_at = None \/ fail_at = Some 0%nat -> db' = db).
Proof.
  intros fail_at db db' r resp H Hf. unfold placeOrder in H.
  destruct (validate r); simpl in H;
    [|injection H as <- <-; repeat split; auto].
  destruct (for_of (lessonIDs r)) as [ids|];
    [|injection H as <- <-; repeat split; auto].
  destruct (map_ObjectId (keys (lessonCountMap ids))) as [os|];
    [|injection H as <- <-; repeat split; auto].
  destruct (throws fail_at 0) eqn:E0;
    [injection H as <- <-; repeat split; auto|].
  destruct (check _ _) as [resp0|] eqn:Eck;
    [injection H as <- <-; repeat split; auto|].
  destruct (update_loop _ _ _ _ _) as [ls' finished] eqn:Eup.
  assert (Hnone : fail_at = None \/ fail_at = Some 0%nat -> finished = true
                  /\ throws fail_at
                       (S (List.length (find_in os (lessonsCollection db))))
                     = false).
  { intros [-> | ->]; [|discriminate E0]. split; [|reflexivity].
    pose proof (update_loop_finishes (lessonCountMap ids)
                  (find_in os (lessonsCollection db)) 1
                  (lessonsCollection db)) as Hfin.
    rewrite Eup in Hfin. exact Hfin. }
  destruct finished; simpl in H.
  - destruct (throws fail_at
                (S (List.length (find_in os (lessonsCollection db))))) eqn:El.
    + injection H as <- <-. repeat split; simpl; auto.
      * congruence.
      * intros Hfa. destruct (Hnone Hfa) as [_ Hth]. discriminate.
    + injection H as <- <-. discriminate Hf.
  - injection H as <- <-. repeat split; simpl; auto.
    + congruence.
    + intros Hfa. destruct (Hnone Hfa) as [Hfin _]. discriminate.
Qed.

Lemma failure_leaves_no_order_witness :
  let db := mkStore [lessonA 5; lessonB 2] [] in
  let resp := NotEnoughSpaces "Spanish" 3 2 in
  ordersCollection db = ordersCollection db
  /\ (resp <> ServerError -> db = db)
  /\ (@None nat = None \/ None = Some 0%nat -> db = db).
Proof.
  intros db resp.
  exact (failure_leaves_no_order None db db
           (customer (JArr [idA; idB; idB; idB]) (JNum 4)) resp
           eq_refl eq_refl).
Defined.

(** C7, the claim as stated fails: the stored order lists an identifier
    that names no lesson of the store. *)
Lemma unknown_id_is_recorded :
  let db := mkStore [lessonA 5] [] in
  let out := placeOrder None db (customer (JArr [idA; idX]) (JNum 2)) in
  snd out = OrderSaved 0
  /\ map o_lessonIDs (ordersCollection (fst out)) = [[idA; idX]]
  /\ exists_in (lessonsCollection db) idX = false.
Proof. intros db out. repeat split. Qed.

(** C7, amended.  The identifiers stored with a saved order are the
    ObjectIds of the identifiers the request lists, whether or not a lesson
    with that identifier exists; when the request spells its identifiers
    canonically they are exactly the request's identifiers, each listed
    once. *)
Theorem recorded_ids_are_the_requested_ids :
  forall (fail_at : option nat) (db db' : store) (r : request)
         (ids : list string) (n : nat),
    lessonIDs r = JArr ids ->
    placeOrder fail_at db r = (db', OrderSaved n) ->
    exists o,
      ordersCollection db' = (ordersCollection db ++ [o])%list
      /\ (forall i, In i (o_lessonIDs o)
                    <-> exists id, In id ids /\ ObjectId id = Some i)
      /\ (Forall canonical ids ->
          NoDup (o_lessonIDs o)
          /\ forall i, In i (o_lessonIDs o) <-> In i ids).
Proof.
  intros fail_at db db' r ids n Hids H.
  apply placeOrder_saved in H.
  destruct H as (ids' & os & ls' & _ & Hfor & Hos & _ & _ & -> & _).
  rewrite Hids in Hfor. injection Hfor as <-.
  eexists. split; [reflexivity|]. simpl. split.
  - intros i. rewrite (map_ObjectId_In _ _ Hos i). split.
    + intros (k & Hk & E). apply In_keys_lessonCountMap in Hk.
      exists k. tauto.
    + intros (k & Hk & E). exists k. split; [|assumption].
      apply In_keys_lessonCountMap. split; [assumption|].
      intros ->. vm_compute in E. discriminate.
  - intros Hcan.
    assert (Hkeys : Forall canonical (keys (lessonCountMap ids))).
    { rewrite Forall_forall in *. intros k Hk.
      apply In_keys_lessonCountMap in Hk. apply Hcan. tauto. }
    rewrite (map_ObjectId_canonical _ Hkeys) in Hos. injection Hos as <-.
    split; [apply NoDup_keys_lessonCountMap|].
    intros i. rewrite In_keys_lessonCountMap. split; [tauto|].
    intros Hi. split; [assumption|]. apply canonical_not_proto.
    rewrite Forall_forall in Hcan. auto.
Qed.

Lemma recorded_ids_are_the_requested_ids_witness :
  let db := mkStore [lessonA 5] [] in
  let ids := [idA; idX; idA] in
  exists o,
    ordersCollection
      (fst (placeOrder None db (customer (JArr ids) (JNum 3))))
    = (ordersCollection db ++ [o])%list
    /\ (forall i, In i (o_lessonIDs o)
                  <-> exists id, In id ids /\ ObjectId id = Some i)
    /\ (Forall canonical ids ->
        NoDup (o_lessonIDs o) /\ forall i, In i (o_lessonIDs o) <-> In i ids).
Proof.
  intros db ids.
  exact (recorded_ids_are_the_requested_ids None db _
           (customer (JArr ids) (JNum 3)) ids 0%nat eq_refl eq_refl).
Defined.

(** ** The titles of a saved order *)

Lemma flat_map_ext_In (A B : Type) (f g : A -> list B) (l : list A) :
  (forall x, In x l -> f x = g x) -> flat_map f l = flat_map g l.
Proof.
  induction l as [|x l IH]; simpl; intros H; [reflexivity|].
  rewrite (H x (or_introl eq_refl)), IH; [reflexivity|].
  intros y Hy. apply H. auto.
Qed.

Lemma flat_map_filter_skip (A B : Type) (f : A -> list B) (p : A -> bool)
    (l : list A) :
  (forall x, In x l -> p x = false -> f x = []) ->
  flat_map f (filter p l) = flat_map f l.
Proof.
  induction l as [|x l IH]; simpl; intros H; [reflexivity|].
  destruct (p x) eqn:E; simpl.
  - rewrite IH; [reflexivity|]. intros y Hy. apply H. auto.
  - rewrite (H x (or_introl eq_refl) E), IH; [reflexivity|].
    intros y Hy. apply H. auto.
Qed.

Lemma flat_map_app_Permutation (A B : Type) (f g : A -> list B) (l : list A) :
  Permutation (flat_map (fun x => f x ++ g x)%list l)
              (flat_map f l ++ flat_map g l).
Proof.
  induction l as [|x l IH]; simpl; [constructor|].
  rewrite <- !app_assoc. apply Permutation_app_head.
  rewrite IH. rewrite !app_assoc. apply Permutation_app_tail.
  apply Permutation_app_comm.
Qed.

Lemma flat_map_units_asked (t oid : string) (ids : list string) :
  flat_map (fun id => if resolves_to oid id then [t] else []) ids
  = repeat t (units_asked ids oid).
Proof.
  unfold units_asked. induction ids as [|id ids IH]; simpl; [reflexivity|].
  rewrite IH. destruct (resolves_to oid id); reflexivity.
Qed.

(** Grouping the titles by lesson permutes the sequence that follows the
    request. *)
Lemma grouped_titles_Permutation (ls : list lesson) (ids : list string) :
  Permutation
    (flat_map (fun l => repeat (title l) (units_asked ids (_id l))) ls)
    (titles_in_request_order ls ids).
Proof.
  unfold titles_in_request_order. induction ls as [|l ls IH]; simpl.
  - induction ids as [|id ids IHi]; simpl; [constructor | assumption].
  - rewrite (flat_map_ext_In _ _ _
               (fun id => (if resolves_to (_id l) id then [title l] else [])
                          ++ map title
                               (filter (fun l0 => resolves_to (_id l0) id) ls))%list).
    + rewrite flat_map_app_Permutation, flat_map_units_asked.
      apply Permutation_app_head. exact IH.
    + intros id _. destruct (resolves_to (_id l) id); reflexivity.
Qed.

(** For a request spelled canonically, the units asked of a lesson are the
    occurrences of its [_id] in the list. *)
Lemma units_asked_canonical (ids : list string) (oid : string) :
  Forall canonical ids ->
  units_asked ids oid = count_occ string_dec ids oid.
Proof.
  unfold units_asked. induction 1 as [|id ids Hid _ IH]; simpl;
    [reflexivity|].
  unfold resolves_to at 1. rewrite Hid.
  destruct (string_dec id oid) as [->|Hne].
  - rewrite String.eqb_refl. simpl. rewrite IH. reflexivity.
  - apply String.eqb_neq in Hne. rewrite Hne. exact IH.
Qed.

Lemma lessonNames_by_occurrences (ls : list lesson) (ids os : list string) :
  Forall canonical (map _id ls) ->
  map_ObjectId (keys (lessonCountMap ids)) = Some os ->
  lessonNames (lessonCountMap ids) (find_in os ls)
  = flat_map (fun l => repeat (title l) (count_occ string_dec ids (_id l))) ls.
Proof.
  intros Hcan Hos. unfold lessonNames, find_in.
  assert (Hc : forall l, In l ls -> canonical (_id l)).
  { intros l Hl. rewrite Forall_forall in Hcan. apply Hcan.
    apply in_map. assumption. }
  rewrite flat_map_filter_skip.
  - apply flat_map_ext_In. intros l Hl.
    rewrite iterations_lessonCountMap; [reflexivity|].
    apply canonical_not_proto. auto.
  - intros l Hl Hnot.
    destruct (lookup (lessonCountMap ids) (_id l)) as [n|] eqn:E;
      [|reflexivity].
    exfalso.
    assert (Hk : In (_id l) (keys (lessonCountMap ids))).
    { destruct (in_dec string_dec (_id l) (keys (lessonCountMap ids)))
        as [Hin|Hout]; [assumption|].
      apply lookup_None_keys in Hout. congruence. }
    assert (Hin : In (_id l) os).
    { apply (map_ObjectId_In _ _ Hos). exists (_id l). split; [assumption|].
      apply Hc. assumption. }
    assert (Ht : existsb (String.eqb (_id l)) os = true).
    { apply existsb_exists. exists (_id l). split; [assumption|].
      apply String.eqb_refl. }
    congruence.
Qed.

(** C6, the claim as stated fails: for [lessonIDs = [A; B; A]] the stored
    titles are grouped by lesson, not parallel to the request. *)
Lemma titles_are_not_parallel_to_the_request :
  let db := mkStore [lessonA 5; lessonB 2] [] in
  let ids := [idA; idB; idA] in
  let out := placeOrder None db (customer (JArr ids) (JNum 3)) in
  snd out = OrderSaved 0
  /\ map o_lessonNames (ordersCollection (fst out))
     = [["French"; "French"; "Spanish"]]
  /\ titles_in_request_order (lessonsCollection db) ids
     = ["French"; "Spanish"; "French"]
  /\ map o_lessonNames (ordersCollection (fst out))
     <> [titles_in_request_order (lessonsCollection db) ids].
Proof. intros db ids out. repeat split. vm_compute. discriminate. Qed.

(** C6, amended.  For a request that spells its identifiers canonically
    (lower-case hex, as the [_id]s of the collection are), the titles
    stored with a saved order are grouped by lesson: for each
    lesson of the collection, in the order the batch read returns them, its
    title repeated once per occurrence of its identifier in [lessonIDs].
    That is one title per purchased unit, a permutation of the sequence
    parallel to [lessonIDs]. *)
Theorem titles_are_grouped_by_lesson :
  forall (fail_at : option nat) (db db' : store) (r : request)
         (ids : list string) (n : nat),
    lessonIDs r = JArr ids ->
    Forall canonical ids ->
    Forall canonical (map _id (lessonsCollection db)) ->
    placeOrder fail_at db r = (db', OrderSaved n) ->
    exists o,
      ordersCollection db' = (ordersCollection db ++ [o])%list
      /\ o_lessonNames o
         = flat_map (fun l => repeat (title l)
                                     (count_occ string_dec ids (_id l)))
                    (lessonsCollection db)
      /\ Permutation (o_lessonNames o)
                     (titles_in_request_order (lessonsCollection db) ids).
Proof.
  intros fail_at db db' r ids n Hids Hreq Hcan H.
  apply placeOrder_saved in H.
  destruct H as (ids' & os & ls' & _ & Hfor & Hos & _ & _ & -> & _).
  rewrite Hids in Hfor. injection Hfor as <-.
  eexists. split; [reflexivity|]. simpl.
  rewrite (lessonNames_by_occurrences _ _ _ Hcan Hos).
  split; [reflexivity|].
  rewrite <- (grouped_titles_Permutation (lessonsCollection db) ids).
  rewrite (flat_map_ext_In _ _
             (fun l => repeat (title l) (count_occ string_dec ids (_id l)))
             (fun l => repeat (title l) (units_asked ids (_id l)))).
  - reflexivity.
  - intros l _. rewrite (units_asked_canonical ids (_id l) Hreq).
    reflexivity.
Qed.

Lemma titles_are_grouped_by_lesson_witness :
  let db := mkStore [lessonA 5; lessonB 2] [] in
  let ids := [idA; idB; idA] in
  exists o,
    ordersCollection (fst (placeOrder None db (customer (JArr ids) (JNum 3))))
    = (ordersCollection db ++ [o])%list
    /\ o_lessonNames o
       = flat_map (fun l => repeat (title l)
                                   (count_occ string_dec ids (_id l)))
                  (lessonsCollection db)
    /\ Permutation (o_lessonNames o)
                   (titles_in_request_order (lessonsCollection db) ids).
Proof.
  intros db ids.
  apply (titles_are_grouped_by_lesson None db _
           (customer (JArr ids) (JNum 3)) ids 0%nat).
  - reflexivity.
  - repeat constructor.
  - simpl. repeat constructor.
  - reflexivity.
Defined.

(** ** Identifiers that name no lesson *)

Lemma check_ext (m m' : countMap) (lessons : list lesson) :
  (forall l, In l lessons -> lookup m (_id l) = lookup m' (_id l)) ->
  check m lessons = check m' lessons.
Proof.
  induction lessons as [|l lessons IH]; simpl; intros H; [reflexivity|].
  rewrite <- (H l (or_introl eq_refl)), IH; [reflexivity|].
  intros x Hx. apply H. auto.
Qed.

Lemma update_loop_ext (fail_at : option nat) (m m' : countMap)
    (todo : list lesson) :
  (forall l, In l todo -> lookup m (_id l) = lookup m' (_id l)) ->
  forall (k : nat) (ls : list lesson),
    update_loop fail_at k m todo ls = update_loop fail_at k m' todo ls.
Proof.
  induction todo as [|l todo IH]; simpl; intros H k ls; [reflexivity|].
  rewrite <- (H l (or_introl eq_refl)), IH; [reflexivity|].
  intros x Hx. apply H. auto.
Qed.

Lemma lessonNames_ext (m m' : countMap) (lessons : list lesson) :
  (forall l, In l lessons -> lookup m (_id l) = lookup m' (_id l)) ->
  lessonNames m lessons = lessonNames m' lessons.
Proof.
  intros H. unfold lessonNames. apply flat_map_ext_In.
  intros l Hl. rewrite (H l Hl). reflexivity.
Qed.

Lemma count_occ_filter_kept (p : string -> bool) (ids : list string)
    (k : string) :
  p k = true ->
  count_occ string_dec (filter p ids) k = count_occ string_dec ids k.
Proof.
  intros Hk. induction ids as [|id ids IH]; simpl; [reflexivity|].
  destruct (p id) eqn:E; simpl.
  - rewrite IH. reflexivity.
  - destruct (string_dec id k) as [->|_]; [congruence | assumption].
Qed.

Lemma exists_in_In (ls : list lesson) (l : lesson) :
  In l ls -> exists_in ls (_id l) = true.
Proof.
  intros H. unfold exists_in. apply existsb_exists.
  exists l. split; [assumption | apply String.eqb_refl].
Qed.

Lemma lookup_proto (ids : list string) :
  lookup (lessonCountMap ids) "__proto__" = None.
Proof.
  apply lookup_None_keys. rewrite In_keys_lessonCountMap. tauto.
Qed.

Lemma names_a_lesson_resolved (ls : list lesson) (l : lesson) (k : string) :
  In l ls -> ObjectId k = Some (_id l) -> names_a_lesson ls k = true.
Proof.
  intros Hl Hk. unfold names_a_lesson. apply existsb_exists.
  exists l. split; [assumption|].
  unfold resolves_to. rewrite Hk. apply String.eqb_refl.
Qed.

(** Dropping from the request the identifiers that resolve to no lesson
    changes no count the handler reads. *)
Lemma lookup_known (ls : list lesson) (ids : list string) (l : lesson) :
  In l ls ->
  canonical (_id l) ->
  lookup (lessonCountMap ids) (_id l)
  = lookup (lessonCountMap (filter (names_a_lesson ls) ids)) (_id l).
Proof.
  intros Hl Hcan.
  assert (Hne : _id l <> "__proto__") by (apply canonical_not_proto; assumption).
  rewrite !lookup_lessonCountMap by assumption.
  rewrite count_occ_filter_kept
    by (apply (names_a_lesson_resolved ls l); assumption).
  reflexivity.
Qed.

Lemma find_in_known (ls : list lesson) (ids os os' : list string) :
  map_ObjectId (keys (lessonCountMap ids)) = Some os ->
  map_ObjectId (keys (lessonCountMap (filter (names_a_lesson ls) ids)))
  = Some os' ->
  find_in os ls = find_in os' ls.
Proof.
  intros Hos Hos'. unfold find_in. apply filter_ext_in. intros l Hl.
  apply Bool.eq_iff_eq_true. rewrite !existsb_exists. split.
  - intros (o & Ho & E). apply String.eqb_eq in E. subst o.
    exists (_id l). split; [|apply String.eqb_refl].
    apply (map_ObjectId_In _ _ Hos) in Ho. destruct Ho as (k & Hk & Hid).
    apply (map_ObjectId_In _ _ Hos'). exists k. split; [|assumption].
    apply In_keys_lessonCountMap in Hk. apply In_keys_lessonCountMap.
    split; [|tauto]. apply filter_In. split; [tauto|].
    apply (names_a_lesson_resolved ls l); assumption.
  - intros (o & Ho & E). apply String.eqb_eq in E. subst o.
    exists (_id l). split; [|apply String.eqb_refl].
    apply (map_ObjectId_In _ _ Hos') in Ho. destruct Ho as (k & Hk & Hid).
    apply (map_ObjectId_In _ _ Hos). exists k. split; [|assumption].
    apply In_keys_lessonCountMap in Hk. apply In_keys_lessonCountMap.
    split; [|tauto]. destruct Hk as [Hk _]. apply filter_In in Hk. tauto.
Qed.

Lemma canonical_keys (ids : list string) :
  Forall canonical ids -> Forall canonical (keys (lessonCountMap ids)).
Proof.
  rewrite !Forall_forall. intros H k Hk.
  apply In_keys_lessonCountMap in Hk. apply H. tauto.
Qed.

(** C4, the claim as stated fails: an order that names a lesson that does
    not exist is saved. *)
Lemma unknown_id_does_not_fail_the_order :
  let db := mkStore [lessonA 5] [] in
  let out := placeOrder None db (customer (JArr [idA; idX]) (JNum 2)) in
  exists_in (lessonsCollection db) idX = false
  /\ snd out = OrderSaved 0
  /\ inventory_of idA (lessonsCollection (fst out)) = Some (Int 4).
Proof. intros db out. repeat split. Qed.

(** C4, amended.  In a request whose identifiers are all strings that
    [new ObjectId] accepts, on a collection whose [_id]s are canonical
    (lower-case hex), an identifier that resolves to no lesson is
    skipped, not treated as insufficient inventory: the handler reads,
    checks and decrements only the lessons the batch read returned, so the
    response, the inventories left in the store and the titles stored with
    the order are those of the same request without the identifiers that
    resolve to no lesson. *)
Theorem unknown_ids_are_skipped :
  forall (fail_at : option nat) (db : store) (r : request)
         (ids : list string),
    lessonIDs r = JArr ids ->
    Forall well_formed ids ->
    Forall canonical (map _id (lessonsCollection db)) ->
    let known := filter (names_a_lesson (lessonsCollection db)) ids in
    let out := placeOrder fail_at db r in
    let out' := placeOrder fail_at db (with_lessonIDs r known) in
    snd out = snd out'
    /\ lessonsCollection (fst out) = lessonsCollection (fst out')
    /\ map o_lessonNames (ordersCollection (fst out))
       = map o_lessonNames (ordersCollection (fst out')).
Proof.
  intros fail_at db r ids Hids Hwf Hcan known out out'.
  subst out out'. unfold placeOrder.
  assert (Hv : validate (with_lessonIDs r known) = validate r).
  { rewrite !validate_split, Hids. reflexivity. }
  rewrite Hv. destruct (validate r); simpl negb; cbv iota; [|auto].
  rewrite Hids. cbn [for_of with_lessonIDs lessonIDs].
  assert (Hwf' : Forall well_formed known).
  { subst known. rewrite Forall_forall in *. intros k Hk.
    apply filter_In in Hk. apply Hwf. tauto. }
  destruct (map_ObjectId_total _ (well_formed_keys ids Hwf)) as (os & Hos).
  destruct (map_ObjectId_total _ (well_formed_keys known Hwf'))
    as (os' & Hos').
  rewrite Hos, Hos'.
  destruct (throws fail_at 0); [auto|].
  subst known. rewrite <- (find_in_known _ ids os os' Hos Hos').
  set (lessons := find_in os (lessonsCollection db)).
  assert (Hlk : forall l, In l lessons ->
                  lookup (lessonCountMap ids) (_id l)
                  = lookup (lessonCountMap
                              (filter (names_a_lesson (lessonsCollection db))
                                      ids))
                           (_id l)).
  { intros l Hl. apply find_in_In in Hl. destruct Hl as [Hl _].
    apply lookup_known; [assumption|].
    rewrite Forall_forall in Hcan. apply Hcan. apply in_map. assumption. }
  rewrite <- (check_ext _ _ _ Hlk).
  destruct (check (lessonCountMap ids) lessons); [auto|].
  rewrite <- (update_loop_ext fail_at _ _ _ Hlk).
  destruct (update_loop fail_at 1 (lessonCountMap ids) lessons
              (lessonsCollection db)) as [ls' finished].
  destruct finished; simpl negb; cbv iota; [|auto].
  destruct (throws fail_at (S (List.length lessons))); [auto|].
  cbn [fst snd lessonsCollection ordersCollection].
  repeat split. rewrite !map_app. f_equal. simpl.
  rewrite <- (lessonNames_ext _ _ _ Hlk). reflexivity.
Qed.

Lemma unknown_ids_are_skipped_witness :
  let db := mkStore [lessonA 5; lessonB 2] [] in
  let out := placeOrder None db
               (customer (JArr [idA; idX; idB_upper]) (JNum 3)) in
  let out' := placeOrder None db (customer (JArr [idA; idB_upper]) (JNum 3)) in
  snd out = snd out'
  /\ lessonsCollection (fst out) = lessonsCollection (fst out')
  /\ map o_lessonNames (ordersCollection (fst out))
     = map o_lessonNames (ordersCollection (fst out')).
Proof.
  intros db.
  apply (unknown_ids_are_skipped None db
           (customer (JArr [idA; idX; idB_upper]) (JNum 3))
           [idA; idX; idB_upper]).
  - reflexivity.
  - repeat constructor; unfold well_formed; vm_compute; discriminate.
  - simpl. repeat constructor.
Defined.

(** ** Orders one after the other, and orders in flight together *)

Lemma resume_n_Done (n : nat) (db : store) (resp : response) :
  resume_n n db (Done resp) = (db, Done resp).
Proof. induction n as [|n IH]; simpl; auto. Qed.

Lemma resume_n_updates (r : request) (m : countMap) (os : list string)
    (lessons todo : list lesson) :
  forall (db : store) (extra : nat),
    resume_n (List.length todo + 1 + extra) db
             (next_update r m os lessons todo)
    = (mkStore (fst (update_loop None 1 m todo (lessonsCollection db)))
               (ordersCollection db ++ [build_order r m os lessons]),
       Done (OrderSaved (List.length (ordersCollection db)))).
Proof.
  assert (Hk : forall todo k k' ls,
             update_loop None k m todo ls = update_loop None k' m todo ls).
  { clear. induction todo as [|l todo IH]; intros k k' ls; simpl; auto. }
  induction todo as [|l todo IH]; intros db extra; simpl.
  - apply resume_n_Done.
  - rewrite IH. simpl.
    rewrite (Hk todo 2%nat 1%nat). reflexivity.
Qed.

(** A handler that runs with no other request in flight is [placeOrder]:
    resumed often enough, it ends with the same store and response. *)
Lemma handler_alone (db : store) (r : request) :
  exists n, forall extra,
    resume_n (n + extra) db (spawn r)
    = (fst (placeOrder None db r), Done (snd (placeOrder None db r))).
Proof.
  unfold spawn, placeOrder.
  destruct (validate r); simpl negb; cbv iota;
    [|exists 0%nat; intros; apply resume_n_Done].
  destruct (for_of (lessonIDs r)) as [ids|];
    [|exists 0%nat; intros; apply resume_n_Done].
  destruct (map_ObjectId (keys (lessonCountMap ids))) as [os|];
    [|exists 0%nat; intros; apply resume_n_Done].
  cbn [throws].
  set (lessons := find_in os (lessonsCollection db)).
  exists (S (List.length lessons + 1)). intros extra.
  cbn [Nat.add resume_n resume]. fold lessons.
  destruct (check (lessonCountMap ids) lessons) as [resp|].
  - apply resume_n_Done.
  - rewrite resume_n_updates.
    pose proof (update_loop_finishes (lessonCountMap ids) lessons 1
                  (lessonsCollection db)) as Hfin.
    destruct (update_loop None 1 (lessonCountMap ids) lessons
                (lessonsCollection db)) as [ls' finished].
    simpl in Hfin. subst finished. reflexivity.
Qed.

Lemma map_id_updateOne (id : string) (d : number) (ls : list lesson) :
  map _id (updateOne_inc id d ls) = map _id ls.
Proof.
  induction ls as [|l ls IH]; simpl; [reflexivity|].
  destruct (_id l =? id)%string; simpl; [reflexivity | rewrite IH; reflexivity].
Qed.

Lemma map_id_update_loop (fail_at : option nat) (m : countMap)
    (todo : list lesson) :
  forall (k : nat) (ls : list lesson),
    map _id (fst (update_loop fail_at k m todo ls)) = map _id ls.
Proof.
  induction todo as [|l todo IH]; intros k ls; simpl; [reflexivity|].
  destruct (throws fail_at k); [reflexivity|].
  rewrite IH. apply map_id_updateOne.
Qed.

Lemma updateOne_never_negative (id : string) (d : number) (ls : list lesson) :
  never_negative ls ->
  (forall a b, inventory_of id ls = Some (Int a) -> inc (Int a) d = Int b ->
               0 <= b) ->
  never_negative (updateOne_inc id d ls).
Proof.
  unfold never_negative.
  induction ls as [|l ls IH]; simpl; intros Hnn Hd x a Hx Ha; [destruct Hx|].
  destruct (_id l =? id)%string eqn:E.
  - destruct Hx as [<- | Hx]; [|eauto].
    simpl in Ha. destruct (availableInventory l) as [|a0] eqn:E0;
      [discriminate|].
    apply (Hd a0 a); [reflexivity | assumption].
  - destruct Hx as [<- | Hx]; [eauto|].
    apply (IH (fun y b Hy => Hnn y b (or_intror Hy)) Hd x a Hx Ha).
Qed.

Lemma update_loop_never_negative (fail_at : option nat) (m : countMap)
    (todo : list lesson) :
  forall (k : nat) (ls : list lesson),
    NoDup (map _id todo) ->
    never_negative ls ->
    (forall l n a, In l todo -> lookup m (_id l) = Some n ->
                   inventory_of (_id l) ls = Some (Int a) ->
                   Z.of_nat n <= a) ->
    never_negative (fst (update_loop fail_at k m todo ls)).
Proof.
  induction todo as [|l todo IH]; intros k ls Hnd Hnn Hok; simpl;
    [assumption|].
  destruct (throws fail_at k); [assumption|].
  inversion Hnd as [|? ? Hnot Hnd']; subst.
  apply IH; [assumption| |].
  - apply updateOne_never_negative; [assumption|].
    intros a b Ha Hb.
    destruct (lookup m (_id l)) as [n|] eqn:En; simpl in Hb; [|discriminate].
    injection Hb as <-.
    specialize (Hok l n a (or_introl eq_refl) En Ha). lia.
  - intros l' n a Hl' Hn Ha. rewrite inventory_of_updateOne in Ha.
    destruct (_id l =? _id l')%string eqn:E.
    + apply String.eqb_eq in E. exfalso. apply Hnot. rewrite E.
      apply in_map. assumption.
    + apply (Hok l' n a); simpl; auto.
Qed.

Lemma NoDup_ids_find_in (os : list string) (ls : list lesson) :
  NoDup (map _id ls) -> NoDup (map _id (find_in os ls)).
Proof.
  unfold find_in. induction ls as [|x ls IH]; simpl; intros H; [constructor|].
  inversion H as [|? ? Hnot Hnd]; subst.
  destruct (existsb (String.eqb (_id x)) os); simpl; [|auto].
  constructor; [|auto].
  intros Hin. apply Hnot. apply in_map_iff in Hin.
  destruct Hin as (y & <- & Hy). apply in_map.
  apply filter_In in Hy. tauto.
Qed.

(** One order, handled alone, never drives an inventory below zero,
    whether or not a driver call fails on the way. *)
Lemma placeOrder_never_negative (fail_at : option nat) (db : store)
    (r : request) :
  NoDup (map _id (lessonsCollection db)) ->
  never_negative (lessonsCollection db) ->
  never_negative (lessonsCollection (fst (placeOrder fail_at db r))).
Proof.
  intros Hnd Hnn. unfold placeOrder.
  destruct (validate r); simpl negb; cbv iota; [|assumption].
  destruct (for_of (lessonIDs r)) as [ids|]; [|assumption].
  destruct (map_ObjectId (keys (lessonCountMap ids))) as [os|]; [|assumption].
  destruct (throws fail_at 0); [assumption|].
  set (lessons := find_in os (lessonsCollection db)).
  destruct (check (lessonCountMap ids) lessons) as [resp|] eqn:Eck;
    [assumption|].
  assert (Hup : never_negative
                  (fst (update_loop fail_at 1 (lessonCountMap ids) lessons
                          (lessonsCollection db)))).
  { apply update_loop_never_negative; [|assumption|].
    - apply NoDup_ids_find_in. assumption.
    - intros l n a Hl Hn Ha.
      assert (Hin : In l (lessonsCollection db))
        by (apply find_in_In in Hl; tauto).
      rewrite (inventory_of_In _ l Hnd Hin) in Ha. injection Ha as Ha.
      apply (proj1 (check_passes _ _) Eck l n a Hl Hn Ha). }
  destruct (update_loop fail_at 1 (lessonCountMap ids) lessons
              (lessonsCollection db)) as [ls' finished].
  destruct finished; simpl negb; cbv iota; [|exact Hup].
  destruct (throws fail_at (S (List.length lessons))); exact Hup.
Qed.

Lemma map_id_placeOrder (fail_at : option nat) (db : store) (r : request) :
  map _id (lessonsCollection (fst (placeOrder fail_at db r)))
  = map _id (lessonsCollection db).
Proof.
  unfold placeOrder.
  destruct (validate r); simpl negb; cbv iota; [|reflexivity].
  destruct (for_of (lessonIDs r)) as [ids|]; [|reflexivity].
  destruct (map_ObjectId (keys (lessonCountMap ids))) as [os|]; [|reflexivity].
  destruct (throws fail_at 0); [reflexivity|].
  destruct (check _ _); [reflexivity|].
  pose proof (map_id_update_loop fail_at (lessonCountMap ids)
                (find_in os (lessonsCollection db)) 1 (lessonsCollection db))
    as Hm.
  destruct (update_loop _ _ _ _ _) as [ls' finished]. simpl in Hm.
  destruct finished; simpl negb; cbv iota; [|exact Hm].
  destruct (throws fail_at _); exact Hm.
Qed.

(** Any number of orders handled one after the other drives no inventory
    below zero: the oversell of two orders in flight needs the overlap. *)
Lemma serial_orders_never_oversell (rs : list request) :
  forall db : store,
    NoDup (map _id (lessonsCollection db)) ->
    never_negative (lessonsCollection db) ->
    never_negative (lessonsCollection (serial rs db)).
Proof.
  unfold serial. induction rs as [|r rs IH]; intros db Hnd Hnn; simpl;
    [assumption|].
  apply IH.
  - rewrite map_id_placeOrder. assumption.
  - apply placeOrder_never_negative; assumption.
Qed.

(** C2, the code at the failing input.  Two orders of one space of a lesson
    that has a single space left, in flight together: both [find]s are
    answered before either [updateOne] is applied, both handlers pass the
    check of line 111 on the inventory they read, both decrement.  Both
    orders are saved, two spaces are sold out of one, and the inventory
    ends at -1. *)
Theorem concurrent_orders_oversell :
  let db := mkStore [lessonA 1] [] in
  let r := customer (JArr [idA]) (JNum 1) in
  let out := run [0; 1; 0; 1; 0; 1]%nat db [spawn r; spawn r] in
  snd out = [Done (OrderSaved 0); Done (OrderSaved 1)]
  /\ inventory_of idA (lessonsCollection (fst out)) = Some (Int (-1))
  /\ map o_lessonNames (ordersCollection (fst out)) = [["French"]; ["French"]]
  /\ ~ never_negative (lessonsCollection (fst out)).
Proof.
  intros db r out. repeat split.
  intros H. specialize (H (lessonA (-1)) (-1) (or_introl eq_refl) eq_refl).
  lia.
Qed.

(** ** Search *)





(** The example of the specification: searching "Spanish" twice returns
    the same lessons, and the match ignores case. *)
Example search_spanish :
  search plain_RegExp decimal_Number (mkStore catalog [])
         (Some (units "spanish"))
  = Results [mkLesson idB "Spanish" "MADRID" 1800 (Int 7)].
Proof. reflexivity. Qed.

(** ** Further properties of the order handler *)

Lemma list_sum_bump (m : countMap) (id : string) :
  list_sum (map snd (bump m id)) = S (list_sum (map snd m)).
Proof.
  induction m as [|[k n] m IH]; simpl; [reflexivity|].
  destruct (k =? id)%string; simpl; [reflexivity|].
  rewrite IH. lia.
Qed.

Lemma list_sum_count_steps (ids : list string) :
  forall m : countMap,
    list_sum (map snd (fold_left count_step ids m))
    = (list_sum (map snd m)
       + List.length (filter (fun id => negb (id =? "__proto__")%string) ids))%nat.
Proof.
  induction ids as [|id ids IH]; intros m; simpl; [lia|].
  rewrite IH. unfold count_step.
  destruct (id =? "__proto__")%string; simpl; [reflexivity|].
  rewrite list_sum_bump. lia.
Qed.

(** X1.  Lines 102-103 build the demand map by counting.  Its keys are
    distinct.  For an identifier that [new ObjectId] accepts (the only ones
    whose entries the handler goes on to read), the count stored is the
    number of times the identifier occurs in [lessonIDs], and there is no
    entry exactly when it does not occur.  When every listed identifier is
    one [new ObjectId] accepts, the counts add up to the number of
    identifiers listed: every requested unit is counted once. *)
Theorem demand_map_counts_occurrences :
  forall ids : list string,
    NoDup (keys (lessonCountMap ids))
    /\ (forall k n,
          well_formed k ->
          (lookup (lessonCountMap ids) k = Some n
           <-> In k ids /\ n = count_occ string_dec ids k))
    /\ (forall k,
          well_formed k ->
          (lookup (lessonCountMap ids) k = None <-> ~ In k ids))
    /\ (Forall well_formed ids ->
        list_sum (map snd (lessonCountMap ids)) = List.length ids).
Proof.
  intros ids. split; [apply NoDup_keys_lessonCountMap|].
  assert (Hproto : forall k, well_formed k -> k <> "__proto__").
  { intros k Hk ->. apply Hk. reflexivity. }
  assert (Hnone : forall k, well_formed k ->
                    (lookup (lessonCountMap ids) k = None <-> ~ In k ids)).
  { intros k Hk. rewrite lookup_None_keys, In_keys_lessonCountMap.
    specialize (Hproto k Hk). tauto. }
  split; [|split; [exact Hnone|]].
  - intros k n Hk. pose proof (Hproto k Hk) as Hne. split.
    + intros H.
      assert (Hin : In k ids).
      { destruct (in_dec string_dec k ids) as [Hin|Hout]; [assumption|].
        rewrite (proj2 (Hnone k Hk) Hout) in H. discriminate. }
      split; [assumption|].
      rewrite <- (iterations_lessonCountMap ids k Hne), H. reflexivity.
    + intros (Hin & ->). rewrite lookup_lessonCountMap by assumption.
      apply (count_occ_In string_dec) in Hin.
      destruct (count_occ string_dec ids k); [lia | reflexivity].
  - intros Hwf. unfold lessonCountMap. rewrite list_sum_count_steps. simpl.
    f_equal. clear Hnone.
    induction Hwf as [|id ids Hid _ IH]; simpl; [reflexivity|].
    assert (E : (id =? "__proto__")%string = false).
    { apply String.eqb_neq. apply Hproto. assumption. }
    rewrite E. simpl. f_equal. exact IH.
Qed.

Lemma update_loop_without_failure (fail_at : option nat) (m : countMap)
    (todo : list lesson) :
  forall (k : nat) (ls ls' : list lesson),
    update_loop fail_at k m todo ls = (ls', true) ->
    update_loop None 1 m todo ls = (ls', true).
Proof.
  assert (Hk : forall todo k k' ls,
             update_loop None k m todo ls = update_loop None k' m todo ls).
  { clear. induction todo as [|l todo IH]; intros k k' ls; simpl; auto. }
  induction todo as [|l todo IH]; intros k ls ls' H; simpl in *.
  - assumption.
  - destruct (throws fail_at k); [discriminate|].
    rewrite (Hk todo 2%nat 1%nat). apply (IH (S k)). assumption.
Qed.

Lemma inventory_of_update_loop (m : countMap) (todo : list lesson) :
  forall (k : nat) (ls : list lesson) (id : string),
    NoDup (map _id todo) ->
    inventory_of id (fst (update_loop None k m todo ls))
    = if exists_in todo id
      then option_map (fun a => inc a (neg_needed (lookup m id)))
                      (inventory_of id ls)
      else inventory_of id ls.
Proof.
  induction todo as [|l todo IH]; intros k ls id Hnd; simpl; [reflexivity|].
  inversion Hnd as [|? ? Hnot Hnd']; subst.
  rewrite IH by assumption. rewrite inventory_of_updateOne.
  destruct (_id l =? id)%string eqn:E; simpl.
  - apply String.eqb_eq in E. subst id.
    assert (Hex : exists_in todo (_id l) = false).
    { unfold exists_in. destruct (existsb _ todo) eqn:Ex; [|reflexivity].
      apply existsb_exists in Ex. destruct Ex as (x & Hx & Ee).
      apply String.eqb_eq in Ee. exfalso. apply Hnot. rewrite <- Ee.
      apply in_map. assumption. }
    rewrite Hex. reflexivity.
  - reflexivity.
Qed.

Lemma inventory_after_saved_order (fail_at : option nat) (db db' : store)
    (r : request) (ids : list string) (n : nat) (l : lesson) (a : Z) :
  lessonIDs r = JArr ids ->
  Forall canonical ids ->
  NoDup (map _id (lessonsCollection db)) ->
  placeOrder fail_at db r = (db', OrderSaved n) ->
  In l (lessonsCollection db) ->
  availableInventory l = Int a ->
  inventory_of (_id l) (lessonsCollection db')
  = Some (Int (a - Z.of_nat (count_occ string_dec ids (_id l)))).
Proof.
  intros Hids Hcan Hnd H Hl Ha.
  apply placeOrder_saved in H.
  destruct H as (ids' & os & ls' & _ & Hfor & Hos & Hck & Hup & -> & _).
  rewrite Hids in Hfor. injection Hfor as <-.
  rewrite (map_ObjectId_canonical _ (canonical_keys _ Hcan)) in Hos.
  injection Hos as <-.
  apply update_loop_without_failure in Hup.
  set (lessons := find_in (keys (lessonCountMap ids)) (lessonsCollection db))
    in *.
  assert (Hinv : inventory_of (_id l) ls'
                 = if exists_in lessons (_id l)
                   then option_map
                          (fun x => inc x (neg_needed
                                             (lookup (lessonCountMap ids) (_id l))))
                          (inventory_of (_id l) (lessonsCollection db))
                   else inventory_of (_id l) (lessonsCollection db)).
  { rewrite <- (inventory_of_update_loop (lessonCountMap ids) lessons 1
                  (lessonsCollection db) (_id l)).
    - rewrite Hup. reflexivity.
    - apply NoDup_ids_find_in. assumption. }
  cbn [lessonsCollection]. rewrite Hinv.
  rewrite (inventory_of_In _ l Hnd Hl), Ha.
  destruct (in_dec string_dec (_id l) ids) as [Hin|Hout].
  - assert (Hne : _id l <> "__proto__").
    { apply canonical_not_proto. rewrite Forall_forall in Hcan. auto. }
    assert (Hfound : In l lessons).
    { apply find_in_In. split; [assumption|].
      apply In_keys_lessonCountMap. auto. }
    rewrite (exists_in_In _ _ Hfound).
    rewrite lookup_lessonCountMap by assumption.
    apply (count_occ_In string_dec) in Hin.
    destruct (count_occ string_dec ids (_id l)); [lia | reflexivity].
  - assert (Hex : exists_in lessons (_id l) = false).
    { unfold exists_in. destruct (existsb _ lessons) eqn:Ex; [|reflexivity].
      apply existsb_exists in Ex. destruct Ex as (x & Hx & Ee).
      apply String.eqb_eq in Ee. apply find_in_In in Hx.
      destruct Hx as [_ Hx]. apply In_keys_lessonCountMap in Hx.
      rewrite Ee in Hx. tauto. }
    rewrite Hex.
    rewrite (proj1 (count_occ_not_In string_dec ids (_id l)) Hout).
    f_equal. f_equal. simpl. lia.
Qed.

(** X2.  A saved order decrements exactly: after a 200, every lesson of a
    collection with unique [_id]s holds what it held minus the number of
    times its identifier occurs in [lessonIDs] (nothing for a lesson the
    order does not name), and a lesson the order names held at least that
    many spaces. *)
Theorem saved_order_decrements_by_occurrences :
  forall (fail_at : option nat) (db db' : store) (r : request)
         (ids : list string) (n : nat),
    lessonIDs r = JArr ids ->
    Forall canonical ids ->
    NoDup (map _id (lessonsCollection db)) ->
    placeOrder fail_at db r = (db', OrderSaved n) ->
    forall l a,
      In l (lessonsCollection db) ->
      availableInventory l = Int a ->
      inventory_of (_id l) (lessonsCollection db')
      = Some (Int (a - Z.of_nat (count_occ string_dec ids (_id l))))
      /\ (In (_id l) ids ->
          Z.of_nat (count_occ string_dec ids (_id l)) <= a).
Proof.
  intros fail_at db db' r ids n Hids Hcan Hnd H l a Hl Ha.
  split.
  - apply (inventory_after_saved_order fail_at db db' r ids n l a);
      assumption.
  - intros Hin. apply placeOrder_saved in H.
    destruct H as (ids' & os & ls' & _ & Hfor & Hos & Hck & _).
    rewrite Hids in Hfor. injection Hfor as <-.
    rewrite (map_ObjectId_canonical _ (canonical_keys _ Hcan)) in Hos.
    injection Hos as <-.
    assert (Hne : _id l <> "__proto__").
    { apply canonical_not_proto. rewrite Forall_forall in Hcan. auto. }
    assert (Hfound : In l (find_in (keys (lessonCountMap ids))
                                   (lessonsCollection db))).
    { apply find_in_In. split; [assumption|].
      apply In_keys_lessonCountMap. auto. }
    assert (Hlk : lookup (lessonCountMap ids) (_id l)
                  = Some (count_occ string_dec ids (_id l))).
    { rewrite lookup_lessonCountMap by assumption.
      apply (count_occ_In string_dec) in Hin.
      destruct (count_occ string_dec ids (_id l)); [lia | reflexivity]. }
    apply (proj1 (check_passes _ _) Hck l _ a Hfound Hlk Ha).
Qed.

Lemma saved_order_decrements_by_occurrences_witness :
  let db := mkStore [lessonA 5; lessonB 2] [] in
  let ids := [idA; idB; idA] in
  let out := placeOrder None db (customer (JArr ids) (JNum 3)) in
  inventory_of idA (lessonsCollection (fst out)) = Some (Int (5 - 2))
  /\ (In idA ids -> 2 <= 5).
Proof.
  intros db ids out.
  apply (saved_order_decrements_by_occurrences None db (fst out)
           (customer (JArr ids) (JNum 3)) ids 0%nat eq_refl
           ltac:(repeat constructor)
           ltac:(simpl; repeat constructor; simpl; intuition discriminate)
           eq_refl (lessonA 5) 5 (or_introl eq_refl) eq_refl).
Defined.

Lemma fixed_fields_updateOne (id : string) (d : number) (ls : list lesson) :
  map fixed_fields (updateOne_inc id d ls) = map fixed_fields ls.
Proof.
  induction ls as [|l ls IH]; simpl; [reflexivity|].
  destruct (_id l =? id)%string; simpl; [reflexivity|].
  rewrite IH. reflexivity.
Qed.

Lemma fixed_fields_update_loop (fail_at : option nat) (m : countMap)
    (todo : list lesson) :
  forall (k : nat) (ls : list lesson),
    map fixed_fields (fst (update_loop fail_at k m todo ls))
    = map fixed_fields ls.
Proof.
  induction todo as [|l todo IH]; intros k ls; simpl; [reflexivity|].
  destruct (throws fail_at k); [reflexivity|].
  rewrite IH. apply fixed_fields_updateOne.
Qed.

Lemma fixed_fields_placeOrder (fail_at : option nat) (db : store)
    (r : request) :
  map fixed_fields (lessonsCollection (fst (placeOrder fail_at db r)))
  = map fixed_fields (lessonsCollection db).
Proof.
  unfold placeOrder.
  destruct (validate r); simpl negb; cbv iota; [|reflexivity].
  destruct (for_of (lessonIDs r)) as [ids|]; [|reflexivity].
  destruct (map_ObjectId (keys (lessonCountMap ids))) as [os|]; [|reflexivity].
  destruct (throws fail_at 0); [reflexivity|].
  destruct (check _ _); [reflexivity|].
  pose proof (fixed_fields_update_loop fail_at (lessonCountMap ids)
                (find_in os (lessonsCollection db)) 1 (lessonsCollection db))
    as Hm.
  destruct (update_loop _ _ _ _ _) as [ls' finished]. simpl in Hm.
  destruct finished; simpl negb; cbv iota; [|exact Hm].
  destruct (throws fail_at _); exact Hm.
Qed.

(** X3.  Whatever their outcomes, and wherever a driver call fails, orders
    handled one after the other add no lesson, remove none, keep the
    lessons in their order and change nothing of a lesson but its
    [availableInventory]: [_id], [title], [location] and [price] are what
    they were. *)
Theorem orders_change_inventory_only :
  forall (rs : list (option nat * request)) (db : store),
    map fixed_fields (lessonsCollection (serial_with_failures rs db))
    = map fixed_fields (lessonsCollection db).
Proof.
  unfold serial_with_failures.
  induction rs as [|[fail_at r] rs IH]; intros db; simpl; [reflexivity|].
  rewrite IH. apply fixed_fields_placeOrder.
Qed.


(** X4.  An order document is stored exactly when the answer is the 200.
    Either the handler fails and the orders collection is what it was, or
    it answers 200, appends one document to the collection and leaves the
    earlier ones in place, and the new document carries the six customer
    fields and [numberOfSpaces] of the request unchanged. *)
Theorem order_is_stored_exactly_on_200 :
  forall (fail_at : option nat) (db : store) (r : request),
    (failed (snd (placeOrder fail_at db r)) = true
     /\ ordersCollection (fst (placeOrder fail_at db r)) = ordersCollection db)
    \/ (exists o,
          failed (snd (placeOrder fail_at db r)) = false
          /\ ordersCollection (fst (placeOrder fail_at db r))
             = (ordersCollection db ++ [o])%list
          /\ (o_name o, o_phoneNumber o, o_address o, o_city o, o_state o,
              o_zip o, o_numberOfSpaces o)
             = (name r, phoneNumber r, address r, city r, state r, zip r,
                numberOfSpaces r)).
Proof.
  intros fail_at db r. unfold placeOrder.
  destruct (validate r); simpl negb; cbv iota; [|left; auto].
  destruct (for_of (lessonIDs r)) as [ids|]; [|left; auto].
  destruct (map_ObjectId (keys (lessonCountMap ids))) as [os|]; [|left; auto].
  destruct (throws fail_at 0); [left; auto|].
  destruct (check _ _) as [resp|] eqn:Eck.
  - destruct (check_response _ _ _ Eck) as (t & k & a & ->). left. auto.
  - destruct (update_loop _ _ _ _ _) as [ls' finished].
    destruct finished; simpl negb; cbv iota; [|left; auto].
    destruct (throws fail_at (S (List.length
                                   (find_in os (lessonsCollection db)))));
      [left; auto|].
    right. eexists. simpl. repeat split.
Qed.

Lemma map_ObjectId_fails (ks : list string) (k : string) :
  In k ks -> ObjectId k = None -> map_ObjectId ks = None.
Proof.
  induction ks as [|k0 ks IH]; simpl; intros Hin Hk; [destruct Hin|].
  destruct Hin as [-> | Hin].
  - rewrite Hk. reflexivity.
  - destruct (ObjectId k0); [|reflexivity].
    rewrite (IH Hin Hk). reflexivity.
Qed.

(** X5.  One malformed identifier fails the whole order with a 500: when
    a request that passes line 97 has an array for [lessonIDs] that lists a
    string other than ["__proto__"] that [new ObjectId] refuses, line 105
    throws before the store is read, whatever the other identifiers are,
    and the store is left as it was.  (The string ["__proto__"] never
    becomes a key of the demand map, so line 105 does not see it.) *)
Theorem malformed_identifier_is_a_server_error :
  forall (fail_at : option nat) (db : store) (r : request)
         (ids : list string) (id : string),
    customer_fields_ok r = true ->
    truthy (numberOfSpaces r) = true ->
    lessonIDs r = JArr ids ->
    In id ids ->
    id <> "__proto__" ->
    ObjectId id = None ->
    placeOrder fail_at db r = (db, ServerError).
Proof.
  intros fail_at db r ids id Hc Hn Hids Hin Hne Hbad.
  unfold placeOrder.
  rewrite (validate_array r ids Hc Hn Hids), Hids. simpl.
  rewrite (map_ObjectId_fails (keys (lessonCountMap ids)) id); auto.
  apply In_keys_lessonCountMap. auto.
Qed.

Lemma malformed_identifier_is_a_server_error_witness :
  let db := mkStore [lessonA 5] [] in
  placeOrder None db (customer (JArr [idA; "42"]) (JNum 2))
  = (db, ServerError).
Proof.
  intros db.
  apply (malformed_identifier_is_a_server_error None db
           (customer (JArr [idA; "42"]) (JNum 2)) [idA; "42"] "42");
    try reflexivity.
  - simpl. right. left. reflexivity.
  - discriminate.
Defined.

(** X6.  [lessonIDs] has to be an array: a request that passes line 97
    with a [lessonIDs] that is a string, a number, [true] or an object ends
    in a 500 and leaves the store as it was.  (A value that cannot be
    iterated throws at line 103; a string is iterated character by
    character and no single character is an ObjectId.) *)
Theorem lessonIDs_must_be_an_array :
  forall (fail_at : option nat) (db : store) (r : request),
    validate r = true ->
    (forall ids, lessonIDs r <> JArr ids) ->
    placeOrder fail_at db r = (db, ServerError).
Proof.
  intros fail_at db r Hv Hna. unfold placeOrder. rewrite Hv. simpl negb.
  cbv iota.
  assert (Ht : truthy (lessonIDs r) = true).
  { rewrite validate_split in Hv. apply andb_true_iff in Hv.
    destruct Hv as [Hv _]. apply andb_true_iff in Hv. tauto. }
  destruct (lessonIDs r) as [| |b|n|s|xs|] eqn:E; simpl in *;
    try reflexivity; try discriminate.
  - destruct s as [|c s']; [discriminate|]. simpl.
    rewrite (map_ObjectId_fails _ (String c EmptyString)); auto.
    apply In_keys_lessonCountMap. split; [left; reflexivity|].
    intros Heq. apply (f_equal String.length) in Heq. discriminate.
  - exfalso. apply (Hna xs). reflexivity.
Qed.

Lemma lessonIDs_must_be_an_array_witness :
  let db := mkStore [lessonA 5] [] in
  placeOrder None db (customer (JStr idA) (JNum 1)) = (db, ServerError).
Proof.
  intros db.
  apply (lessonIDs_must_be_an_array None db (customer (JStr idA) (JNum 1))).
  - reflexivity.
  - intros ids. discriminate.
Defined.

Lemma check_app (m : countMap) (before rest : list lesson) :
  check m before = None -> check m (before ++ rest) = check m rest.
Proof.
  induction before as [|p before IH]; simpl; intros H; [reflexivity|].
  destruct (availableInventory p) as [|a]; [auto|].
  destruct (lookup m (_id p)) as [n|]; [|auto].
  destruct (a <? Z.of_nat n); [discriminate | auto].
Qed.

Lemma find_in_app (os : list string) (xs ys : list lesson) :
  find_in os (xs ++ ys) = (find_in os xs ++ find_in os ys)%list.
Proof. unfold find_in. apply filter_app. Qed.

(** X7.  For a request that spells its identifiers canonically, when
    several lessons are short the 400 names the first one in the order of
    the collection: if no lesson before [l] is short for the order and [l]
    is, the answer is "Not enough spaces" for [l], with the units asked of
    [l] and the inventory of [l], and the store is what it was.  (A lesson
    is short when the order asks units of it and its inventory is a number
    smaller than the units asked.) *)
Theorem first_short_lesson_is_reported :
  forall (db : store) (r : request) (ids : list string)
         (before after : list lesson) (l : lesson),
    customer_fields_ok r = true ->
    truthy (numberOfSpaces r) = true ->
    lessonIDs r = JArr ids ->
    Forall canonical ids ->
    lessonsCollection db = (before ++ l :: after)%list ->
    (forall p, In p before -> ~ short ids p) ->
    short ids l ->
    exists a,
      availableInventory l = Int a
      /\ placeOrder None db r
         = (db, NotEnoughSpaces (title l) (units_asked ids (_id l)) a).
Proof.
  intros db r ids before after l Hc Hn Hids Hreq Hls Hbefore
         (a & Ha & Hpos & Hlt).
  exists a. split; [assumption|].
  rewrite (units_asked_canonical ids (_id l) Hreq) in *.
  assert (Hin : In (_id l) ids).
  { apply (count_occ_In string_dec). lia. }
  assert (Hcan : canonical (_id l)).
  { rewrite Forall_forall in Hreq. auto. }
  unfold placeOrder.
  rewrite (validate_array r ids Hc Hn Hids), Hids. simpl.
  rewrite (map_ObjectId_canonical _ (canonical_keys _ Hreq)).
  rewrite Hls, find_in_app.
  set (os := keys (lessonCountMap ids)).
  assert (Hne : _id l <> "__proto__") by (apply canonical_not_proto; assumption).
  assert (Hfound : existsb (String.eqb (_id l)) os = true).
  { apply existsb_exists. exists (_id l). split; [|apply String.eqb_refl].
    apply In_keys_lessonCountMap. auto. }
  assert (Hpre : check (lessonCountMap ids) (find_in os before) = None).
  { apply check_passes. intros p n z Hp Hlk Hz.
    apply find_in_In in Hp. destruct Hp as [Hp _].
    assert (Hkey : In (_id p) (keys (lessonCountMap ids))).
    { destruct (in_dec string_dec (_id p) (keys (lessonCountMap ids)))
        as [Hk|Hout]; [assumption|].
      apply lookup_None_keys in Hout. congruence. }
    apply In_keys_lessonCountMap in Hkey. destruct Hkey as [Hpin Hpne].
    assert (Hcount : n = count_occ string_dec ids (_id p)).
    { rewrite <- (iterations_lessonCountMap ids (_id p) Hpne), Hlk.
      reflexivity. }
    subst n. destruct (Z_lt_le_dec z (Z.of_nat (count_occ string_dec ids (_id p))))
      as [Hshort|Hok]; [|assumption].
    exfalso. apply (Hbefore p Hp). exists z. split; [assumption|].
    rewrite (units_asked_canonical ids (_id p) Hreq).
    apply (count_occ_In string_dec) in Hpin. split; [lia | assumption]. }
  rewrite (check_app _ _ _ Hpre).
  unfold find_in at 1. simpl filter. rewrite Hfound. simpl check.
  rewrite Ha, lookup_lessonCountMap by assumption.
  destruct (count_occ string_dec ids (_id l)) as [|c] eqn:Ec; [simpl in Hlt|].
  - apply (count_occ_In string_dec) in Hin. lia.
  - assert (E : (a <? Z.of_nat (S c)) = true) by (apply Z.ltb_lt; assumption).
    rewrite E. reflexivity.
Qed.

Lemma first_short_lesson_is_reported_witness :
  let db := mkStore [lessonA 1; lessonB 1] [] in
  exists a,
    availableInventory (lessonA 1) = Int a
    /\ placeOrder None db (customer (JArr [idB; idB; idA; idA]) (JNum 4))
       = (db, NotEnoughSpaces "French" 2 a).
Proof.
  intros db.
  apply (first_short_lesson_is_reported db
           (customer (JArr [idB; idB; idA; idA]) (JNum 4))
           [idB; idB; idA; idA] [] [lessonB 1] (lessonA 1));
    try reflexivity.
  - repeat constructor.
  - intros p [].
  - exists 1. split; [reflexivity|]. split; vm_compute; [lia | reflexivity].
Defined.

(** X8.  [numberOfSpaces] is only required to be truthy; it is never
    compared with the number of identifiers.  Replacing it by any other
    truthy value changes neither the response, nor the inventories left in
    the store, nor the identifiers and titles stored with the order. *)
Theorem numberOfSpaces_is_not_compared_with_lessonIDs :
  forall (fail_at : option nat) (db : store) (r : request) (v : jsval),
    truthy (numberOfSpaces r) = true ->
    truthy v = true ->
    let r' := mkRequest (name r) (phoneNumber r) (address r) (city r)
                        (state r) (zip r) (lessonIDs r) v in
    snd (placeOrder fail_at db r') = snd (placeOrder fail_at db r)
    /\ lessonsCollection (fst (placeOrder fail_at db r'))
       = lessonsCollection (fst (placeOrder fail_at db r))
    /\ map (fun o => (o_lessonIDs o, o_lessonNames o))
           (ordersCollection (fst (placeOrder fail_at db r')))
       = map (fun o => (o_lessonIDs o, o_lessonNames o))
             (ordersCollection (fst (placeOrder fail_at db r))).
Proof.
  intros fail_at db r v Hn Hv r'. subst r'. unfold placeOrder.
  rewrite !validate_split. cbn [numberOfSpaces lessonIDs]. rewrite Hn, Hv.
  replace (customer_fields_ok
             (mkRequest (name r) (phoneNumber r) (address r) (city r)
                        (state r) (zip r) (lessonIDs r) v))
    with (customer_fields_ok r) by reflexivity.
  destruct (customer_fields_ok r && truthy (lessonIDs r) && true)%bool;
    simpl negb; cbv iota; [|auto].
  destruct (for_of (lessonIDs r)) as [ids|]; [|auto].
  destruct (map_ObjectId (keys (lessonCountMap ids))) as [os|]; [|auto].
  destruct (throws fail_at 0); [auto|].
  destruct (check _ _); [auto|].
  destruct (update_loop _ _ _ _ _) as [ls' finished].
  destruct finished; simpl negb; cbv iota; [|auto].
  destruct (throws fail_at _); [auto|].
  simpl. repeat split. rewrite !map_app. reflexivity.
Qed.

Lemma numberOfSpaces_is_not_compared_with_lessonIDs_witness :
  let db := mkStore [lessonA 5] [] in
  let r := customer (JArr [idA; idA]) (JNum 2) in
  let r' := customer (JArr [idA; idA]) (JNum 40) in
  snd (placeOrder None db r') = snd (placeOrder None db r)
  /\ lessonsCollection (fst (placeOrder None db r'))
     = lessonsCollection (fst (placeOrder None db r))
  /\ map (fun o => (o_lessonIDs o, o_lessonNames o))
         (ordersCollection (fst (placeOrder None db r')))
     = map (fun o => (o_lessonIDs o, o_lessonNames o))
           (ordersCollection (fst (placeOrder None db r))).
Proof.
  intros db r r'.
  exact (numberOfSpaces_is_not_compared_with_lessonIDs None db r (JNum 40)
           eq_refl eq_refl).
Defined.

Lemma inventory_of_update_loop_any (fail_at : option nat) (m : countMap)
    (todo : list lesson) :
  forall (k : nat) (ls : list lesson) (id : string),
    NoDup (map _id todo) ->
    inventory_of id (fst (update_loop fail_at k m todo ls))
    = inventory_of id ls
    \/ (exists_in todo id = true
        /\ inventory_of id (fst (update_loop fail_at k m todo ls))
           = option_map (fun a => inc a (neg_needed (lookup m id)))
                        (inventory_of id ls)).
Proof.
  induction todo as [|l todo IH]; intros k ls id Hnd; simpl; [auto|].
  destruct (throws fail_at k); [auto|].
  inversion Hnd as [|? ? Hnot Hnd']; subst.
  destruct (IH (S k) (updateOne_inc (_id l) (neg_needed (lookup m (_id l))) ls)
               id Hnd') as [H | [Hex H]];
    rewrite H, inventory_of_updateOne.
  - destruct (_id l =? id)%string eqn:E; [|auto].
    apply String.eqb_eq in E. subst id. right. split; [|reflexivity].
    unfold exists_in. simpl. rewrite ?String.eqb_refl. reflexivity.
  - destruct (_id l =? id)%string eqn:E.
    + apply String.eqb_eq in E. subst id. exfalso. apply Hnot.
      unfold exists_in in Hex. apply existsb_exists in Hex.
      destruct Hex as (x & Hx & Ex). apply String.eqb_eq in Ex.
      rewrite <- Ex. apply in_map. assumption.
    + right. split; [|reflexivity].
      unfold exists_in in *. simpl. rewrite ?E. assumption.
Qed.

Lemma inventory_of_lesson (id : string) (ls : list lesson) (v : number) :
  inventory_of id ls = Some v ->
  exists l, In l ls /\ _id l = id /\ availableInventory l = v.
Proof.
  induction ls as [|x ls IH]; simpl; [discriminate|].
  destruct (_id x =? id)%string eqn:E.
  - apply String.eqb_eq in E. intros H. injection H as <-. eauto.
  - intros H. destruct (IH H) as (l & Hl & Hrest). eauto.
Qed.

(** A string for [lessonIDs] never changes the store: the empty string
    fails line 97, and the loop of line 102 reads any other string one
    character at a time, which line 105 refuses. *)
Lemma placeOrder_string_lessonIDs (fail_at : option nat) (db : store)
    (r : request) (s : string) :
  lessonIDs r = JStr s -> fst (placeOrder fail_at db r) = db.
Proof.
  intros Hs. unfold placeOrder.
  destruct (validate r) eqn:Hv; simpl negb; cbv iota; [|reflexivity].
  rewrite Hs. destruct s as [|c s].
  - rewrite validate_split, Hs in Hv. simpl in Hv.
    rewrite andb_false_r in Hv. discriminate.
  - cbn [for_of list_ascii_of_string map].
    rewrite (map_ObjectId_fails _ (String c EmptyString)); [reflexivity| |].
    + apply In_keys_lessonCountMap. split; [left; reflexivity | discriminate].
    + reflexivity.
Qed.

(** One order of a request spelled canonically leaves a lesson with a
    number of spaces, and with no more than it held. *)
Lemma placeOrder_never_adds (fail_at : option nat) (db : store) (r : request)
    (l : lesson) (c : Z) :
  NoDup (map _id (lessonsCollection db)) ->
  spelled_canonically r ->
  In l (lessonsCollection db) ->
  availableInventory l = Int c ->
  exists a,
    inventory_of (_id l) (lessonsCollection (fst (placeOrder fail_at db r)))
    = Some (Int a)
    /\ a <= c.
Proof.
  intros Hnd Hreq Hl Hc.
  assert (Hsame : inventory_of (_id l) (lessonsCollection db) = Some (Int c)).
  { rewrite (inventory_of_In _ l Hnd Hl), Hc. reflexivity. }
  assert (Hkeep : exists a, inventory_of (_id l) (lessonsCollection db)
                            = Some (Int a) /\ a <= c).
  { exists c. split; [assumption | lia]. }
  destruct (lessonIDs r) as [| | | |s|ids|] eqn:Eids;
    try (unfold placeOrder; rewrite Eids;
         destruct (validate r); exact Hkeep).
  { rewrite (placeOrder_string_lessonIDs fail_at db r s Eids). exact Hkeep. }
  specialize (Hreq ids Eids).
  unfold placeOrder. rewrite Eids. cbn [for_of].
  destruct (validate r); simpl negb; cbv iota; [|assumption].
  rewrite (map_ObjectId_canonical _ (canonical_keys _ Hreq)).
  destruct (throws fail_at 0); [assumption|].
  set (lessons := find_in (keys (lessonCountMap ids)) (lessonsCollection db)).
  destruct (check (lessonCountMap ids) lessons); [assumption|].
  assert (Hup : exists a,
             inventory_of (_id l)
               (fst (update_loop fail_at 1 (lessonCountMap ids) lessons
                       (lessonsCollection db)))
             = Some (Int a) /\ a <= c).
  { destruct (inventory_of_update_loop_any fail_at (lessonCountMap ids)
                lessons 1 (lessonsCollection db) (_id l))
      as [H | [Hex H]].
    - apply NoDup_ids_find_in. assumption.
    - rewrite H. assumption.
    - rewrite H, Hsame. simpl.
      unfold exists_in in Hex. apply existsb_exists in Hex.
      destruct Hex as (x & Hx & Ex). apply String.eqb_eq in Ex.
      apply find_in_In in Hx. destruct Hx as [_ Hx]. rewrite Ex in Hx.
      apply In_keys_lessonCountMap in Hx. destruct Hx as [Hin Hne].
      rewrite lookup_lessonCountMap by assumption.
      apply (count_occ_In string_dec) in Hin.
      destruct (count_occ string_dec ids (_id l)) as [|n]; [lia|].
      simpl. eexists. split; [reflexivity | lia]. }
  destruct (update_loop fail_at 1 (lessonCountMap ids) lessons
              (lessonsCollection db)) as [ls' finished].
  destruct finished; simpl negb; cbv iota; [|exact Hup].
  destruct (throws fail_at (S (List.length lessons))); exact Hup.
Qed.

Lemma placeOrder_all_in_stock (fail_at : option nat) (db : store)
    (r : request) :
  NoDup (map _id (lessonsCollection db)) ->
  all_in_stock (lessonsCollection db) ->
  spelled_canonically r ->
  all_in_stock (lessonsCollection (fst (placeOrder fail_at db r))).
Proof.
  intros Hnd Hall Hreq x Hx.
  assert (Hnn : never_negative (lessonsCollection db)).
  { intros l a Hl Ha. destruct (Hall l Hl) as (b & Hb & Hpos). congruence. }
  pose proof (placeOrder_never_negative fail_at db r Hnd Hnn) as Hnn'.
  pose proof (map_id_placeOrder fail_at db r) as Hids.
  assert (Hnd' : NoDup (map _id (lessonsCollection
                                   (fst (placeOrder fail_at db r)))))
    by (rewrite Hids; assumption).
  assert (Hin : In (_id x) (map _id (lessonsCollection db))).
  { rewrite <- Hids. apply in_map. assumption. }
  apply in_map_iff in Hin. destruct Hin as (l & Hid & Hl).
  destruct (Hall l Hl) as (c & Hc & _).
  destruct (placeOrder_never_adds fail_at db r l c Hnd Hreq Hl Hc)
    as (a & Ha & _).
  rewrite Hid, (inventory_of_In _ x Hnd' Hx) in Ha. injection Ha as Ha.
  exists a. split; [assumption|]. apply (Hnn' x a Hx Ha).
Qed.

(** X9.  Orders handled one after the other, each spelling canonically
    the identifiers of its [lessonIDs] when that is an array, never
    oversell, also when driver calls fail in the middle of some of them.
    In a collection with unique [_id]s whose
    inventories are numbers that are not negative, after any sequence of
    such orders every inventory is still a number that is not negative,
    and for every lesson what it holds plus the units the saved orders
    asked of it is at most what it held: the units sold never exceed the
    capacity. *)
Theorem orders_in_sequence_never_oversell :
  forall (rs : list (option nat * request)) (db : store),
    NoDup (map _id (lessonsCollection db)) ->
    all_in_stock (lessonsCollection db) ->
    (forall fr, In fr rs -> spelled_canonically (snd fr)) ->
    all_in_stock (lessonsCollection (serial_with_failures rs db))
    /\ forall l c,
         In l (lessonsCollection db) ->
         availableInventory l = Int c ->
         exists a,
           inventory_of (_id l)
                        (lessonsCollection (serial_with_failures rs db))
           = Some (Int a)
           /\ 0 <= a
           /\ a + Z.of_nat (units_sold rs db (_id l)) <= c.
Proof.
  unfold serial_with_failures.
  induction rs as [|[fail_at r] rs IH]; intros db Hnd Hall Hreq.
  - simpl. split; [assumption|]. intros l c Hl Hc.
    exists c. rewrite (inventory_of_In _ l Hnd Hl), Hc.
    destruct (Hall l Hl) as (b & Hb & Hpos).
    repeat split; [congruence | lia].
  - assert (Hr : spelled_canonically r)
      by (apply (Hreq (fail_at, r)); left; reflexivity).
    assert (Hnd1 : NoDup (map _id (lessonsCollection
                                     (fst (placeOrder fail_at db r)))))
      by (rewrite map_id_placeOrder; assumption).
    pose proof (placeOrder_all_in_stock fail_at db r Hnd Hall Hr) as Hall1.
    destruct (IH (fst (placeOrder fail_at db r)) Hnd1 Hall1) as [Hfinal Hsold].
    { intros fr Hfr. apply Hreq. right. assumption. }
    simpl fold_left. cbn [fst snd]. split; [exact Hfinal|].
    intros l c Hl Hc.
    assert (Hstep : exists a,
               inventory_of (_id l)
                 (lessonsCollection (fst (placeOrder fail_at db r)))
               = Some (Int a)
               /\ a + Z.of_nat
                        (match snd (placeOrder fail_at db r), lessonIDs r with
                         | OrderSaved _, JArr ids => units_asked ids (_id l)
                         | _, _ => 0%nat
                         end) <= c).
    { destruct (placeOrder_never_adds fail_at db r l c Hnd Hr Hl Hc)
        as (a & Ha & Hle).
      destruct (snd (placeOrder fail_at db r)) as [| | |n] eqn:Eresp;
        try (exists a; split; [assumption | simpl; lia]).
      destruct (lessonIDs r) as [| | | | |ids|] eqn:Eids;
        try (exists a; split; [assumption | simpl; lia]).
      assert (Hcan : Forall canonical ids) by (apply Hr; assumption).
      exists (c - Z.of_nat (count_occ string_dec ids (_id l))). split.
      - apply (inventory_after_saved_order fail_at db
                 (fst (placeOrder fail_at db r)) r ids n l c);
          try assumption.
        rewrite <- Eresp. destruct (placeOrder fail_at db r); reflexivity.
      - rewrite (units_asked_canonical ids (_id l) Hcan). lia. }
    destruct Hstep as (a & Ha & Hle).
    destruct (inventory_of_lesson _ _ _ Ha) as (l1 & Hl1 & Hid1 & Hinv1).
    destruct (Hsold l1 a Hl1 Hinv1) as (a2 & Ha2 & Hpos & Hle2).
    rewrite Hid1 in Ha2, Hle2.
    exists a2. split; [exact Ha2|]. split; [assumption|].
    cbn [units_sold fst snd]. rewrite Nat2Z.inj_add. lia.
Qed.

Lemma orders_in_sequence_never_oversell_witness :
  let db := mkStore [lessonA 3; lessonB 2] [] in
  let rs := [ (None, customer (JArr [idA; idA]) (JNum 2));
              (Some 2%nat, customer (JArr [idA; idB]) (JNum 2));
              (None, customer (JArr [idA; idB]) (JNum 2)) ] in
  all_in_stock (lessonsCollection (serial_with_failures rs db))
  /\ forall l c,
       In l (lessonsCollection db) ->
       availableInventory l = Int c ->
       exists a,
         inventory_of (_id l)
                      (lessonsCollection (serial_with_failures rs db))
         = Some (Int a)
         /\ 0 <= a
         /\ a + Z.of_nat (units_sold rs db (_id l)) <= c.
Proof.
  intros db rs.
  apply (orders_in_sequence_never_oversell rs db).
  - simpl. repeat constructor; simpl; intuition discriminate.
  - intros l [<- | [<- | []]]; eexists; (split; [reflexivity | lia]).
  - intros fr [<- | [<- | [<- | []]]] ids E; simpl in E;
      injection E as <-; repeat constructor.
Defined.

Lemma run_app (s1 s2 : list nat) :
  forall (db : store) (ts : list task),
    run (s1 ++ s2) db ts = run s2 (fst (run s1 db ts)) (snd (run s1 db ts)).
Proof.
  induction s1 as [|i s1 IH]; intros db ts; simpl; [reflexivity|].
  destruct (resume_nth i db ts) as [db' ts']. apply IH.
Qed.

Lemma run_first_only (n : nat) :
  forall (db : store) (t : task) (ts : list task),
    run (repeat 0%nat n) db (t :: ts)
    = (fst (resume_n n db t), snd (resume_n n db t) :: ts).
Proof.
  induction n as [|n IH]; intros db t ts; simpl; [reflexivity|].
  destruct (resume db t) as [db' t']. apply IH.
Qed.

Lemma run_second_only (n : nat) :
  forall (db : store) (t0 t : task) (ts : list task),
    run (repeat 1%nat n) db (t0 :: t :: ts)
    = (fst (resume_n n db t), t0 :: snd (resume_n n db t) :: ts).
Proof.
  induction n as [|n IH]; intros db t0 t ts; simpl; [reflexivity|].
  destruct (resume db t) as [db' t']. apply IH.
Qed.

(** X10.  Handlers that do not overlap are orders handled one after the
    other: when, of two requests in flight, the first handler is resumed
    until it has answered before the second one is resumed at all, the two
    answers and the store reached are those of the two orders placed in
    sequence. *)
Theorem handlers_that_do_not_overlap_are_serial :
  forall (db : store) (r0 r1 : request),
    exists n0 n1,
      run (repeat 0%nat n0 ++ repeat 1%nat n1) db [spawn r0; spawn r1]
      = (serial [r0; r1] db,
         [Done (snd (placeOrder None db r0));
          Done (snd (placeOrder None (fst (placeOrder None db r0)) r1))]).
Proof.
  intros db r0 r1.
  destruct (handler_alone db r0) as (n0 & H0).
  destruct (handler_alone (fst (placeOrder None db r0)) r1) as (n1 & H1).
  exists n0, n1. specialize (H0 0%nat). specialize (H1 0%nat).
  rewrite Nat.add_0_r in H0, H1.
  rewrite run_app, run_first_only, H0. cbn [fst snd].
  rewrite run_second_only, H1. reflexivity.
Qed.




(** ** Reading lessons *)

Lemma findOne_Some (oid : string) (ls : list lesson) (l : lesson) :
  findOne oid ls = Some l -> In l ls /\ _id l = oid.
Proof.
  unfold findOne. intros H. apply find_some in H.
  destruct H as [Hin E]. apply String.eqb_eq in E. auto.
Qed.

Lemma findOne_None (oid : string) (ls : list lesson) :
  findOne oid ls = None <-> ~ In oid (map _id ls).
Proof.
  unfold findOne. induction ls as [|l ls IH]; simpl; [tauto|].
  destruct (_id l =? oid)%string eqn:E.
  - apply String.eqb_eq in E. split; [discriminate | tauto].
  - apply String.eqb_neq in E. rewrite IH. tauto.
Qed.

Lemma findOne_unique (ls : list lesson) (l : lesson) :
  NoDup (map _id ls) -> In l ls -> findOne (_id l) ls = Some l.
Proof.
  unfold findOne.
  induction ls as [|l0 ls IH]; simpl; intros Hnd Hin; [destruct Hin|].
  inversion Hnd as [|? ? Hnot Hnd']; subst.
  destruct Hin as [-> | Hin].
  - rewrite String.eqb_refl. reflexivity.
  - destruct (_id l0 =? _id l)%string eqn:E; [|auto].
    apply String.eqb_eq in E. exfalso. apply Hnot. rewrite E.
    apply in_map. assumption.
Qed.

Lemma findOne_inventory (oid : string) (ls : list lesson) :
  inventory_of oid ls = option_map availableInventory (findOne oid ls).
Proof.
  unfold findOne. induction ls as [|l ls IH]; simpl; [reflexivity|].
  destruct (_id l =? oid)%string; [reflexivity | assumption].
Qed.

Lemma findOne_fixed_fields (oid : string) :
  forall (ls ls' : list lesson) (l : lesson),
    map fixed_fields ls' = map fixed_fields ls ->
    findOne oid ls = Some l ->
    exists l', findOne oid ls' = Some l' /\ fixed_fields l' = fixed_fields l.
Proof.
  unfold findOne.
  induction ls as [|x ls IH]; intros ls' l Hm H; [discriminate|].
  destruct ls' as [|x' ls']; [discriminate|].
  simpl in Hm. assert (Hx : fixed_fields x' = fixed_fields x) by congruence.
  assert (Hrest : map fixed_fields ls' = map fixed_fields ls) by congruence.
  clear Hm. simpl in *.
  assert (Hid : _id x' = _id x).
  { unfold fixed_fields in Hx. congruence. }
  rewrite Hid. destruct (_id x =? oid)%string.
  - injection H as <-. eauto.
  - apply IH; assumption.
Qed.

(** X12.  Every lesson the list endpoint returns can be fetched by its
    identifier: in a collection with unique [_id]s, [GET /api/lessons/:id]
    answers with that very lesson for any spelling of its identifier that
    [new ObjectId] reads as its [_id] (the hex digits in either case). *)
Theorem listed_lesson_is_fetched_by_its_id :
  forall (db : store) (ls : list lesson) (l : lesson) (id : string),
    getLessons false db = LessonList ls ->
    NoDup (map _id ls) ->
    In l ls ->
    ObjectId id = Some (_id l) ->
    getLesson false db id = LessonFound l.
Proof.
  intros db ls l id Hlist Hnd Hin Hid.
  unfold getLessons in Hlist. injection Hlist as <-.
  unfold getLesson. rewrite Hid.
  rewrite (findOne_unique _ l Hnd Hin). reflexivity.
Qed.

Lemma listed_lesson_is_fetched_by_its_id_witness :
  getLesson false (mkStore catalog []) "BBBBBBBBBBBBBBBBBBBBBBBB"
  = LessonFound (mkLesson idB "Spanish" "MADRID" 1800 (Int 7)).
Proof.
  apply (listed_lesson_is_fetched_by_its_id (mkStore catalog []) catalog
           (mkLesson idB "Spanish" "MADRID" 1800 (Int 7))
           "BBBBBBBBBBBBBBBBBBBBBBBB").
  - reflexivity.
  - simpl. repeat constructor; simpl; intuition discriminate.
  - simpl. right. left. reflexivity.
  - reflexivity.
Defined.

(** X13.  The three answers of [GET /api/lessons/:id].  It is a 500
    exactly when the identifier is not one [new ObjectId] accepts or the
    driver throws; a 404 exactly when the identifier is accepted, the
    driver answers and no lesson has that [_id]; and a lesson it returns is
    a lesson of the collection whose [_id] is the identifier asked for. *)
Theorem getLesson_answers :
  forall (driver_throws : bool) (db : store) (id : string),
    (getLesson driver_throws db id = LessonError
     <-> ObjectId id = None \/ driver_throws = true)
    /\ (getLesson driver_throws db id = LessonNotFound
        <-> driver_throws = false
            /\ exists oid, ObjectId id = Some oid
                           /\ ~ In oid (map _id (lessonsCollection db)))
    /\ (forall l, getLesson driver_throws db id = LessonFound l ->
                  driver_throws = false
                  /\ In l (lessonsCollection db)
                  /\ ObjectId id = Some (_id l)).
Proof.
  intros driver_throws db id. unfold getLesson.
  destruct (ObjectId id) as [oid|] eqn:Eid.
  - destruct driver_throws.
    + repeat split; try discriminate; auto.
      intros (H & _). discriminate.
    + destruct (findOne oid (lessonsCollection db)) as [l|] eqn:Ef.
      * apply findOne_Some in Ef as Hl. destruct Hl as [Hin Hoid].
        repeat split; try discriminate.
        -- intros [H | H]; discriminate.
        -- intros (_ & oid' & Ho & Hnot). injection Ho as <-.
           exfalso. apply Hnot. rewrite <- Hoid. apply in_map. assumption.
        -- injection H as <-. assumption.
        -- injection H as <-. congruence.
      * repeat split; try discriminate.
        -- intros [H | H]; discriminate.
        -- exists oid. split; [reflexivity|]. apply findOne_None. assumption.
  - repeat split; try discriminate; auto.
    intros (_ & oid & H & _). discriminate.
Qed.

(** X14.  An order never makes a lesson unreachable.  A lesson that
    [GET /api/lessons/:id] returns before an order is still returned for
    the same identifier after it, whatever the outcome of the order, with
    the same [_id], [title], [location] and [price]; its inventory is the
    one [inventory_of] reports for the store the order left. *)
Theorem order_keeps_lessons_reachable :
  forall (fail_at : option nat) (db : store) (r : request) (id : string)
         (l : lesson),
    getLesson false db id = LessonFound l ->
    exists l',
      getLesson false (fst (placeOrder fail_at db r)) id = LessonFound l'
      /\ fixed_fields l' = fixed_fields l
      /\ inventory_of (_id l) (lessonsCollection (fst (placeOrder fail_at db r)))
         = Some (availableInventory l').
Proof.
  intros fail_at db r id l H. unfold getLesson in *.
  destruct (ObjectId id) as [oid|]; [|discriminate].
  destruct (findOne oid (lessonsCollection db)) as [l0|] eqn:Ef;
    [|discriminate].
  injection H as <-.
  destruct (findOne_fixed_fields oid _ _ l0
              (fixed_fields_placeOrder fail_at db r) Ef) as (l' & Hf & Hfix).
  exists l'. rewrite Hf. repeat split; [assumption|].
  apply findOne_Some in Ef. destruct Ef as [_ ->].
  rewrite findOne_inventory, Hf. reflexivity.
Qed.

Lemma order_keeps_lessons_reachable_witness :
  exists l',
    getLesson false
      (fst (placeOrder None (mkStore catalog [])
              (customer (JArr [idA; idA]) (JNum 2)))) idA
    = LessonFound l'
    /\ fixed_fields l' = fixed_fields (mkLesson idA "French" "PARIS" 1800 (Int 5))
    /\ inventory_of idA
         (lessonsCollection
            (fst (placeOrder None (mkStore catalog [])
                    (customer (JArr [idA; idA]) (JNum 2)))))
       = Some (availableInventory l').
Proof.
  exact (order_keeps_lessons_reachable None (mkStore catalog [])
           (customer (JArr [idA; idA]) (JNum 2)) idA
           (mkLesson idA "French" "PARIS" 1800 (Int 5)) eq_refl).
Defined.

(** ** Seeding *)

Lemma map_id_insertMany (new_id : nat -> string) (docs : list sample_lesson) :
  forall k : nat,
    map _id (insertMany new_id k docs)
    = map new_id (seq k (List.length docs)).
Proof.
  induction docs as [|d docs IH]; intros k; simpl; [reflexivity|].
  rewrite IH. reflexivity.
Qed.

(** X15.  Seeding appends and never cleans up.  The five sample lessons
    are added after the lessons already there, which stay as they were, as
    do the orders: English Language in BIRMINGHAM at 2000 with 7 spaces,
    French in PARIS at 1800 with 5, Spanish in MADRID at 1800 with 7,
    Chinese in HONG-KONG at 1800 with 10 and Mauritian Creole in
    Flic-en-Flac at 1500 with 10, in this order, under the identifiers the
    driver makes.  The answer counts 5 insertions whatever the collection
    held (seeding twice gives every sample twice).  When the collection had
    unique [_id]s and inventories that are numbers and not negative, and
    the driver's five new identifiers are pairwise distinct and used by no
    lesson, the collection after seeding has unique [_id]s and inventories
    that are numbers and not negative. *)
Theorem seed_appends_the_samples :
  forall (new_id : nat -> string) (db : store),
    NoDup (map _id (lessonsCollection db)) ->
    all_in_stock (lessonsCollection db) ->
    (forall i, (i < 5)%nat ->
               ~ In (new_id i) (map _id (lessonsCollection db))) ->
    (forall i j, (i < 5)%nat -> (j < 5)%nat -> new_id i = new_id j -> i = j) ->
    let added :=
      [ mkLesson (new_id 0%nat) "English Language" "BIRMINGHAM" 2000 (Int 7);
        mkLesson (new_id 1%nat) "French" "PARIS" 1800 (Int 5);
        mkLesson (new_id 2%nat) "Spanish" "MADRID" 1800 (Int 7);
        mkLesson (new_id 3%nat) "Chinese" "HONG-KONG" 1800 (Int 10);
        mkLesson (new_id 4%nat) "Mauritian Creole" "Flic-en-Flac" 1500
                 (Int 10) ] in
    seed false new_id db
    = (mkStore (lessonsCollection db ++ added)%list (ordersCollection db),
       Inserted 5)
    /\ NoDup (map _id (lessonsCollection db ++ added)%list)
    /\ all_in_stock (lessonsCollection db ++ added)%list.
Proof.
  intros new_id db Hnd Hall Hfresh Hinj added.
  split; [reflexivity|]. split.
  - rewrite map_app.
    change (map _id added) with (map _id (insertMany new_id 0 sample)).
    rewrite map_id_insertMany. apply NoDup_app.
    + assumption.
    + apply NoDup_map_NoDup_ForallPairs; [|apply seq_NoDup].
      intros i j Hi Hj. apply in_seq in Hi, Hj. apply Hinj; simpl in *; lia.
    + intros a Ha Hin. apply in_map_iff in Hin.
      destruct Hin as (i & <- & Hi). apply in_seq in Hi.
      apply (Hfresh i); [simpl in Hi; lia | assumption].
  - intros l Hl. apply in_app_or in Hl. destruct Hl as [Hl | Hl].
    + apply (Hall l Hl).
    + simpl in Hl.
      destruct Hl as [<- | [<- | [<- | [<- | [<- | []]]]]];
        eexists; (split; [reflexivity | lia]).
Qed.

Lemma seed_appends_the_samples_witness :
  let new_id := fun i : nat =>
                  match i with
                  | 0%nat => "650000000000000000000000"
                  | 1%nat => "650000000000000000000001"
                  | 2%nat => "650000000000000000000002"
                  | 3%nat => "650000000000000000000003"
                  | _ => "650000000000000000000004"
                  end in
  let db := mkStore [lessonA 5] [] in
  let added :=
    [ mkLesson (new_id 0%nat) "English Language" "BIRMINGHAM" 2000 (Int 7);
      mkLesson (new_id 1%nat) "French" "PARIS" 1800 (Int 5);
      mkLesson (new_id 2%nat) "Spanish" "MADRID" 1800 (Int 7);
      mkLesson (new_id 3%nat) "Chinese" "HONG-KONG" 1800 (Int 10);
      mkLesson (new_id 4%nat) "Mauritian Creole" "Flic-en-Flac" 1500
               (Int 10) ] in
  seed false new_id db
  = (mkStore (lessonsCollection db ++ added)%list (ordersCollection db),
     Inserted 5)
  /\ NoDup (map _id (lessonsCollection db ++ added)%list)
  /\ all_in_stock (lessonsCollection db ++ added)%list.
Proof.
  intros new_id db.
  apply (seed_appends_the_samples new_id db).
  - simpl. repeat constructor. simpl. tauto.
  - intros l [<- | []]. eexists. split; [reflexivity | lia].
  - intros i Hi.
    destruct i as [|[|[|[|[|i]]]]]; simpl; try lia; intuition discriminate.
  - intros i j Hi Hj.
    destruct i as [|[|[|[|[|i]]]]]; try lia;
      destruct j as [|[|[|[|[|j]]]]]; try lia;
      simpl; intros E; try reflexivity; discriminate E.
Defined.

(** ** Trimming the query *)

Lemma trim_start_fixed (cs : code_units) :
  (forall c rest, cs = c :: rest -> is_white_space c = false) ->
  trim_start cs = cs.
Proof.
  destruct cs as [|c rest]; simpl; intros H; [reflexivity|].
  rewrite (H c rest eq_refl). reflexivity.
Qed.

Lemma trim_start_head (cs : code_units) (c : N) (rest : code_units) :
  trim_start cs = c :: rest -> is_white_space c = false.
Proof.
  induction cs as [|x cs IH]; simpl; [discriminate|].
  destruct (is_white_space x) eqn:E; [assumption|].
  intros H. injection H as <- _. assumption.
Qed.

Lemma trim_start_suffix (cs : code_units) :
  exists spaces, cs = (spaces ++ trim_start cs)%list
                 /\ forallb is_white_space spaces = true.
Proof.
  induction cs as [|x cs (spaces & IH & Hs)]; simpl.
  - exists []. auto.
  - destruct (is_white_space x) eqn:E.
    + exists (x :: spaces). simpl. rewrite E, Hs. split; [f_equal|]; auto.
    + exists []. auto.
Qed.


(** What [trim] leaves neither starts nor ends with white space. *)
Lemma trim_ends (cs : code_units) :
  trim_start (trim cs) = trim cs
  /\ trim_start (rev (trim cs)) = rev (trim cs).
Proof.
  unfold trim. rewrite rev_involutive.
  set (a := trim_start cs). set (b := trim_start (rev a)).
  assert (Hb : trim_start b = b).
  { apply trim_start_fixed. intros c rest E.
    apply (trim_start_head (rev a) c rest). exact E. }
  split; [|exact Hb].
  apply trim_start_fixed. intros c rest E.
  destruct (trim_start_suffix (rev a)) as (spaces & Hsp & _). fold b in Hsp.
  assert (Ha : a = (rev b ++ rev spaces)%list).
  { rewrite <- rev_app_distr, <- Hsp, rev_involutive. reflexivity. }
  rewrite E in Ha. simpl in Ha.
  apply (trim_start_head cs c (rest ++ rev spaces)%list). exact Ha.
Qed.

Lemma trim_idempotent (cs : code_units) : trim (trim cs) = trim cs.
Proof.
  destruct (trim_ends cs) as [H1 H2].
  unfold trim at 1. rewrite H1, H2. apply rev_involutive.
Qed.




(** ** How the list of identifiers is read *)

Lemma count_steps_skip_proto (ids : list string) :
  forall m : countMap,
    fold_left count_step
      (filter (fun id => negb (id =? "__proto__")%string) ids) m
    = fold_left count_step ids m.
Proof.
  induction ids as [|id ids IH]; intros m; simpl; [reflexivity|].
  destruct (id =? "__proto__")%string eqn:E; simpl.
  - rewrite IH. unfold count_step at 3. rewrite E. reflexivity.
  - apply IH.
Qed.

(** X17.  The identifier ["__proto__"] is invisible to the handler: the
    assignment of line 103 under that key creates no entry in the demand
    map, so a request answers and acts exactly as the same request without
    the occurrences of ["__proto__"] in [lessonIDs] (a request listing
    nothing else is saved as an empty order, not refused as a malformed
    identifier). *)
Theorem proto_identifier_is_ignored :
  forall (fail_at : option nat) (db : store) (r : request)
         (ids : list string),
    lessonIDs r = JArr ids ->
    placeOrder fail_at db
      (with_lessonIDs r
         (filter (fun id => negb (id =? "__proto__")%string) ids))
    = placeOrder fail_at db r.
Proof.
  intros fail_at db r ids Hids. unfold placeOrder.
  rewrite !validate_split, Hids.
  cbn [with_lessonIDs lessonIDs numberOfSpaces for_of truthy].
  replace (customer_fields_ok (with_lessonIDs r _))
    with (customer_fields_ok r) by reflexivity.
  unfold lessonCountMap. rewrite count_steps_skip_proto. reflexivity.
Qed.

Lemma proto_identifier_is_ignored_witness :
  let db := mkStore [lessonA 5] [] in
  placeOrder None db (customer (JArr [idA]) (JNum 2))
  = placeOrder None db (customer (JArr ["__proto__"; idA; "__proto__"]) (JNum 2)).
Proof.
  intros db.
  exact (proto_identifier_is_ignored None db
           (customer (JArr ["__proto__"; idA; "__proto__"]) (JNum 2))
           ["__proto__"; idA; "__proto__"] eq_refl).
Defined.

Lemma map_ObjectId_None (ks : list string) :
  map_ObjectId ks = None <-> exists k, In k ks /\ ObjectId k = None.
Proof.
  split.
  - induction ks as [|k ks IH]; simpl; [discriminate|].
    destruct (ObjectId k) as [o|] eqn:E; [|eauto].
    destruct (map_ObjectId ks) as [os|]; [discriminate|].
    intros _. destruct (IH eq_refl) as (k' & Hin & Hk'). eauto.
  - intros (k & Hin & Hk). apply (map_ObjectId_fails ks k Hin Hk).
Qed.

Lemma lookup_Permutation (ids ids' : list string) (k : string) :
  Permutation ids ids' ->
  lookup (lessonCountMap ids) k = lookup (lessonCountMap ids') k.
Proof.
  intros Hp. destruct (string_dec k "__proto__") as [->|Hne].
  - rewrite !lookup_proto. reflexivity.
  - rewrite !lookup_lessonCountMap by assumption.
    rewrite (proj1 (Permutation_count_occ string_dec ids ids') Hp k).
    reflexivity.
Qed.

Lemma keys_Permutation (ids ids' : list string) (k : string) :
  Permutation ids ids' ->
  In k (keys (lessonCountMap ids)) -> In k (keys (lessonCountMap ids')).
Proof.
  intros Hp. rewrite !In_keys_lessonCountMap. intros [Hin Hne].
  split; [|assumption]. apply (Permutation_in _ Hp Hin).
Qed.

Lemma find_in_same_ids (os os' : list string) (ls : list lesson) :
  (forall o, In o os <-> In o os') -> find_in os ls = find_in os' ls.
Proof.
  intros H. unfold find_in. apply filter_ext. intros l.
  apply Bool.eq_iff_eq_true. rewrite !existsb_exists. split.
  - intros (k & Hk & E). exists k. split; [apply H|]; assumption.
  - intros (k & Hk & E). exists k. split; [apply H|]; assumption.
Qed.

(** X18.  The order in which [lessonIDs] lists the identifiers does not
    matter: listing the same identifiers in another order gives the same
    response, the same inventories and the same stored titles.  (Only the
    order of the identifiers stored with the order follows the request.) *)
Theorem order_of_lessonIDs_does_not_matter :
  forall (fail_at : option nat) (db : store) (r : request)
         (ids ids' : list string),
    lessonIDs r = JArr ids ->
    Permutation ids ids' ->
    snd (placeOrder fail_at db (with_lessonIDs r ids'))
    = snd (placeOrder fail_at db r)
    /\ lessonsCollection (fst (placeOrder fail_at db (with_lessonIDs r ids')))
       = lessonsCollection (fst (placeOrder fail_at db r))
    /\ map o_lessonNames
           (ordersCollection (fst (placeOrder fail_at db (with_lessonIDs r ids'))))
       = map o_lessonNames (ordersCollection (fst (placeOrder fail_at db r))).
Proof.
  intros fail_at db r ids ids' Hids Hp. unfold placeOrder.
  rewrite !validate_split, Hids.
  cbn [with_lessonIDs lessonIDs numberOfSpaces for_of truthy].
  replace (customer_fields_ok (with_lessonIDs r ids'))
    with (customer_fields_ok r) by reflexivity.
  destruct (customer_fields_ok r && true && truthy (numberOfSpaces r))%bool;
    simpl negb; cbv iota; [|auto].
  assert (Hlk : forall k, lookup (lessonCountMap ids) k
                          = lookup (lessonCountMap ids') k)
    by (intros k; apply lookup_Permutation; assumption).
  destruct (map_ObjectId (keys (lessonCountMap ids))) as [os|] eqn:Eo.
  - destruct (map_ObjectId (keys (lessonCountMap ids'))) as [os'|] eqn:Eo'.
    + assert (Hsame : forall o, In o os <-> In o os').
      { intros o. rewrite (map_ObjectId_In _ _ Eo o),
                          (map_ObjectId_In _ _ Eo' o).
        split; intros (k & Hk & E); exists k; split; try assumption.
        - apply (keys_Permutation ids ids'); assumption.
        - apply (keys_Permutation ids' ids);
            [apply Permutation_sym|]; assumption. }
      destruct (throws fail_at 0); [auto|].
      rewrite <- (find_in_same_ids os os' _ Hsame).
      set (lessons := find_in os (lessonsCollection db)).
      rewrite <- (check_ext (lessonCountMap ids) (lessonCountMap ids') lessons)
        by (intros; apply Hlk).
      destruct (check (lessonCountMap ids) lessons); [auto|].
      rewrite <- (update_loop_ext fail_at (lessonCountMap ids)
                    (lessonCountMap ids') lessons) by (intros; apply Hlk).
      destruct (update_loop fail_at 1 (lessonCountMap ids) lessons
                  (lessonsCollection db)) as [ls' finished].
      destruct finished; simpl negb; cbv iota; [|auto].
      destruct (throws fail_at (S (List.length lessons))); [auto|].
      cbn [fst snd lessonsCollection ordersCollection].
      repeat split. rewrite !map_app. f_equal. simpl.
      rewrite <- (lessonNames_ext (lessonCountMap ids) (lessonCountMap ids')
                    lessons) by (intros; apply Hlk).
      reflexivity.
    + exfalso. apply map_ObjectId_None in Eo'.
      destruct Eo' as (k & Hk & Hbad).
      rewrite (map_ObjectId_fails (keys (lessonCountMap ids)) k) in Eo;
        [discriminate| |assumption].
      apply (keys_Permutation ids' ids); [apply Permutation_sym|]; assumption.
  - apply map_ObjectId_None in Eo. destruct Eo as (k & Hk & Hbad).
    rewrite (map_ObjectId_fails (keys (lessonCountMap ids')) k);
      [auto| |assumption].
    apply (keys_Permutation ids ids'); assumption.
Qed.

Lemma order_of_lessonIDs_does_not_matter_witness :
  let db := mkStore [lessonA 5; lessonB 2] [] in
  let r := customer (JArr [idA; idB; idA]) (JNum 3) in
  let r' := customer (JArr [idB; idA; idA]) (JNum 3) in
  snd (placeOrder None db r') = snd (placeOrder None db r)
  /\ lessonsCollection (fst (placeOrder None db r'))
     = lessonsCollection (fst (placeOrder None db r))
  /\ map o_lessonNames (ordersCollection (fst (placeOrder None db r')))
     = map o_lessonNames (ordersCollection (fst (placeOrder None db r))).
Proof.
  intros db r r'.
  apply (order_of_lessonIDs_does_not_matter None db r
           [idA; idB; idA] [idB; idA; idA] eq_refl).
  apply perm_swap.
Defined.

(** X19.  When nothing fails in the driver, a request that passes line 97
    and lists its identifiers in an array, all spelled canonically, is
    saved exactly when no lesson is short for it: the 200 is answered if
    and only if there is no lesson of the collection of which the order
    asks units and whose inventory is a number smaller than the units
    asked. *)
Theorem order_is_saved_iff_no_lesson_is_short :
  forall (db : store) (r : request) (ids : list string),
    customer_fields_ok r = true ->
    truthy (numberOfSpaces r) = true ->
    lessonIDs r = JArr ids ->
    Forall canonical ids ->
    (exists db' n, placeOrder None db r = (db', OrderSaved n))
    <-> (forall l, In l (lessonsCollection db) -> ~ short ids l).
Proof.
  intros db r ids Hc Hn Hids Hreq.
  pose proof (map_ObjectId_canonical _ (canonical_keys _ Hreq)) as Hos.
  assert (Hcount : forall l n,
             lookup (lessonCountMap ids) (_id l) = Some n ->
             In (_id l) ids /\ n = count_occ string_dec ids (_id l)).
  { intros l n Hlk.
    assert (Hkey : In (_id l) (keys (lessonCountMap ids))).
    { destruct (in_dec string_dec (_id l) (keys (lessonCountMap ids)))
        as [Hk|Hout]; [assumption|].
      apply lookup_None_keys in Hout. congruence. }
    apply In_keys_lessonCountMap in Hkey. destruct Hkey as [Hin Hne].
    split; [assumption|].
    rewrite <- (iterations_lessonCountMap ids (_id l) Hne), Hlk.
    reflexivity. }
  split.
  - intros (db' & n & H) l Hl (a & Ha & Hpos & Hlt).
    rewrite (units_asked_canonical ids (_id l) Hreq) in *.
    apply placeOrder_saved in H.
    destruct H as (ids' & os' & ls' & _ & Hfor & Hos' & Hck & _).
    rewrite Hids in Hfor. injection Hfor as <-.
    rewrite Hos in Hos'. injection Hos' as <-.
    assert (Hin : In (_id l) ids) by (apply (count_occ_In string_dec); lia).
    assert (Hne : _id l <> "__proto__").
    { apply canonical_not_proto. rewrite Forall_forall in Hreq. auto. }
    assert (Hfound : In l (find_in (keys (lessonCountMap ids))
                                   (lessonsCollection db))).
    { apply find_in_In. split; [assumption|].
      apply In_keys_lessonCountMap. auto. }
    assert (Hlk : lookup (lessonCountMap ids) (_id l)
                  = Some (count_occ string_dec ids (_id l))).
    { rewrite lookup_lessonCountMap by assumption.
      destruct (count_occ string_dec ids (_id l)); [lia | reflexivity]. }
    pose proof (proj1 (check_passes _ _) Hck l _ a Hfound Hlk Ha). lia.
  - intros Hall. unfold placeOrder.
    rewrite (validate_array r ids Hc Hn Hids), Hids. simpl. rewrite Hos.
    assert (Hck : check (lessonCountMap ids)
                        (find_in (keys (lessonCountMap ids))
                                 (lessonsCollection db)) = None).
    { apply check_passes. intros l n a Hl Hlk Ha.
      apply find_in_In in Hl. destruct Hl as [Hl _].
      destruct (Hcount l n Hlk) as [Hin ->].
      destruct (Z_lt_le_dec a (Z.of_nat (count_occ string_dec ids (_id l))))
        as [Hshort|Hok]; [|assumption].
      exfalso. apply (Hall l Hl). exists a. split; [assumption|].
      rewrite (units_asked_canonical ids (_id l) Hreq).
      apply (count_occ_In string_dec) in Hin. split; [lia | assumption]. }
    rewrite Hck.
    pose proof (update_loop_finishes (lessonCountMap ids)
                  (find_in (keys (lessonCountMap ids)) (lessonsCollection db))
                  1 (lessonsCollection db)) as Hfin.
    destruct (update_loop None 1 (lessonCountMap ids)
                (find_in (keys (lessonCountMap ids)) (lessonsCollection db))
                (lessonsCollection db)) as [ls' finished].
    simpl in Hfin. subst finished. simpl. eauto.
Qed.

Lemma order_is_saved_iff_no_lesson_is_short_witness :
  let db := mkStore [lessonA 5; lessonB 2] [] in
  let ids := [idA; idB; idA] in
  (exists db' n,
     placeOrder None db (customer (JArr ids) (JNum 3)) = (db', OrderSaved n))
  <-> (forall l, In l (lessonsCollection db) -> ~ short ids l).
Proof.
  intros db ids.
  apply (order_is_saved_iff_no_lesson_is_short db
           (customer (JArr ids) (JNum 3)) ids); try reflexivity.
  repeat constructor.
Defined.

(** ** What is sold is what is recorded *)

Lemma length_grouped_titles (f : lesson -> nat) (ls : list lesson) :
  Z.of_nat (List.length (flat_map (fun l => repeat (title l) (f l)) ls))
  = fold_right (fun l acc => Z.of_nat (f l) + acc) 0 ls.
Proof.
  induction ls as [|l ls IH]; simpl; [reflexivity|].
  rewrite length_app, repeat_length, Nat2Z.inj_add, IH. reflexivity.
Qed.

Lemma units_held_after (f : lesson -> nat) :
  forall ls ls' : list lesson,
    map _id ls' = map _id ls ->
    NoDup (map _id ls) ->
    (forall l, In l ls ->
               exists a, availableInventory l = Int a
                         /\ inventory_of (_id l) ls'
                            = Some (Int (a - Z.of_nat (f l)))) ->
    units_held ls - units_held ls'
    = fold_right (fun l acc => Z.of_nat (f l) + acc) 0 ls.
Proof.
  induction ls as [|x ls IH]; intros ls' Hm Hnd H.
  - destruct ls'; [reflexivity | discriminate].
  - destruct ls' as [|x' ls']; [discriminate|].
    simpl in Hm. injection Hm as Hx Hm.
    inversion Hnd as [|? ? Hnot Hnd']; subst.
    destruct (H x (or_introl eq_refl)) as (a & Ha & Hinv).
    simpl in Hinv. rewrite Hx, String.eqb_refl in Hinv.
    injection Hinv as Hx'.
    simpl. rewrite Ha, Hx'.
    rewrite <- (IH ls' Hm Hnd'); [lia|].
    intros l Hl. destruct (H l (or_intror Hl)) as (b & Hb & Hinv).
    exists b. split; [assumption|].
    simpl in Hinv. rewrite Hx in Hinv.
    destruct (_id x =? _id l)%string eqn:E; [|assumption].
    apply String.eqb_eq in E. exfalso. apply Hnot. rewrite E.
    apply in_map. assumption.
Qed.

(** X20.  What is sold is what is recorded, for a request that spells its
    identifiers canonically: in a collection with unique canonical [_id]s
    whose inventories are all numbers, a saved order of such a request
    lowers the spaces held in all by exactly the number of titles stored
    with the order. *)
Theorem titles_account_for_the_decrement :
  forall (fail_at : option nat) (db db' : store) (r : request)
         (ids : list string) (n : nat),
    lessonIDs r = JArr ids ->
    Forall canonical ids ->
    NoDup (map _id (lessonsCollection db)) ->
    Forall canonical (map _id (lessonsCollection db)) ->
    (forall l, In l (lessonsCollection db) ->
               exists a, availableInventory l = Int a) ->
    placeOrder fail_at db r = (db', OrderSaved n) ->
    exists o,
      ordersCollection db' = (ordersCollection db ++ [o])%list
      /\ units_held (lessonsCollection db) - units_held (lessonsCollection db')
         = Z.of_nat (List.length (o_lessonNames o)).
Proof.
  intros fail_at db db' r ids n Hids Hcan Hnd Hcs Hnum H.
  assert (Hafter : units_held (lessonsCollection db)
                   - units_held (lessonsCollection db')
                   = fold_right
                       (fun l acc =>
                          Z.of_nat (count_occ string_dec ids (_id l)) + acc)
                       0 (lessonsCollection db)).
  { apply (units_held_after (fun l => count_occ string_dec ids (_id l))).
    - replace db' with (fst (placeOrder fail_at db r)) by (rewrite H; reflexivity).
      apply map_id_placeOrder.
    - assumption.
    - intros l Hl. destruct (Hnum l Hl) as (a & Ha). exists a.
      split; [assumption|].
      apply (inventory_after_saved_order fail_at db db' r ids n l a);
        assumption. }
  apply placeOrder_saved in H.
  destruct H as (ids' & os & ls' & _ & Hfor & Hos & _ & _ & -> & _).
  rewrite Hids in Hfor. injection Hfor as <-.
  eexists. split; [reflexivity|].
  cbn [o_lessonNames build_order].
  rewrite (lessonNames_by_occurrences _ _ _ Hcs Hos).
  rewrite (length_grouped_titles
             (fun l => count_occ string_dec ids (_id l))).
  exact Hafter.
Qed.

Lemma titles_account_for_the_decrement_witness :
  let db := mkStore [lessonA 5; lessonB 2] [] in
  let out := placeOrder None db (customer (JArr [idA; idB; idA]) (JNum 3)) in
  exists o,
    ordersCollection (fst out) = (ordersCollection db ++ [o])%list
    /\ units_held (lessonsCollection db) - units_held (lessonsCollection (fst out))
       = Z.of_nat (List.length (o_lessonNames o)).
Proof.
  intros db out.
  apply (titles_account_for_the_decrement None db (fst out)
           (customer (JArr [idA; idB; idA]) (JNum 3)) [idA; idB; idA] 0%nat).
  - reflexivity.
  - repeat constructor.
  - simpl. repeat constructor; simpl; intuition discriminate.
  - simpl. repeat constructor.
  - intros l [<- | [<- | []]]; eexists; reflexivity.
  - reflexivity.
Defined.
